(** * Trade ledger and valuation core of the stock dashboard

    A shallow embedding of the portfolio logic of [app.py]: the holdings
    sync performed by [manage_trades], the FIFO computation of
    [calculate_realized_gains], the snapshot upsert of
    [record_portfolio_snapshot], the value series built by
    [create_portfolio_trend_graph], the rebalancing suggestions of
    [update_analytics] and the alert check of [manage_alerts]; and, around
    them, the watchlist, the accounts and holdings edited by hand, the
    holdings import, the expense helpers and the recurring income.

    Numbers.  The program computes with Python floats.  They are modelled
    as exact rationals ([Q]); structural statements are stated with
    Leibniz equality, arithmetic ones with [==] on the numeric fields.
    Python dictionaries are [gmap string _]; Python lists are lists. *)

From Stdlib Require Import QArith Qabs Lia Lqa.
From stdpp Require Import gmap strings list fin_maps sorting.

Local Open Scope Q_scope.
Local Open Scope string_scope.
Local Open Scope list_scope.

(** ** Numeric helpers *)

(** [a < b] on floats, as a boolean. *)
Definition Qltb (a b : Q) : bool := negb (Qle_bool b a).

(** Python's [min(a, b)]: the first argument unless the second is smaller. *)
Definition pymin (a b : Q) : Q := if Qltb b a then b else a.

(** Python's truthiness of a number: non-zero. *)
Definition truthy_num (x : Q) : bool := negb (Qeq_bool x 0).

(** Python's truthiness of a string: non-empty. *)
Definition truthy_str (s : string) : bool :=
  match s with EmptyString => false | _ => true end.

(** ** Data model *)

Inductive action := BUY | SELL.

Record holding := Holding {
  h_ticker : string;
  h_shares : Q;
  h_avg_cost : Q
}.

Record account := Account {
  a_id : string;
  a_name : string;
  a_holdings : list holding
}.

Record trade := Trade {
  t_id : string;
  t_date : string;
  t_account_id : string;
  t_ticker : string;
  t_action : action;
  t_shares : Q;
  t_price : Q;
  t_fees : Q;
  t_notes : string
}.

(** ** TradeLedger: the holdings sync of [manage_trades] *)

(** The first holding of the list with the given ticker. *)
Fixpoint find_holding (tk : string) (hs : list holding) : option holding :=
  match hs with
  | [] => None
  | h :: rest => if String.eqb (h_ticker h) tk then Some h else find_holding tk rest
  end.

(** No holding of the list has the ticker. *)
Definition no_holding (tk : string) (hs : list holding) : Prop :=
  Forall (fun x => h_ticker x ≠ tk) hs.

(** The effect of a trade on the holding it matches: [None] when the
    holding is removed from the list. *)
Definition update_holding (act : action) (s p : Q) (h : holding) : option holding :=
  match act with
  | BUY =>
      let old_total := h_shares h * h_avg_cost h in
      let new_total := s * p in
      let new_shares := h_shares h + s in
      let avg := if Qltb 0 new_shares
                 then (old_total + new_total) / new_shares
                 else h_avg_cost h in
      Some (Holding (h_ticker h) new_shares avg)
  | SELL =>
      let sh := h_shares h - s in
      if Qle_bool sh 0 then None
      else Some (Holding (h_ticker h) sh (h_avg_cost h))
  end.

(** The loop [for holding in account.get('holdings', [])] with its
    [break]: the new list and the flag [holding_found]. *)
Fixpoint sync_existing (act : action) (tk : string) (s p : Q)
    (hs : list holding) : list holding * bool :=
  match hs with
  | [] => ([], false)
  | h :: rest =>
      if String.eqb (h_ticker h) tk then
        (match update_holding act s p h with
         | Some h' => h' :: rest
         | None => rest
         end, true)
      else
        let '(rest', found) := sync_existing act tk s p rest in
        (h :: rest', found)
  end.

(** The body run for the matching account (lines 3341-3369). *)
Definition sync_holdings (act : action) (tk : string) (s p : Q)
    (hs : list holding) : list holding :=
  let '(hs', found) := sync_existing act tk s p hs in
  match act with
  | BUY => if found then hs' else hs' ++ [Holding tk s p]
  | SELL => hs'
  end.

(** The loop over the accounts, stopping at the first one with the id. *)
Fixpoint sync_portfolio (acc_id : string) (act : action) (tk : string)
    (s p : Q) (accounts : list account) : list account :=
  match accounts with
  | [] => []
  | a :: rest =>
      if String.eqb (a_id a) acc_id
      then Account (a_id a) (a_name a) (sync_holdings act tk s p (a_holdings a)) :: rest
      else a :: sync_portfolio acc_id act tk s p rest
  end.

Definition apply_trade (t : trade) (accounts : list account) : list account :=
  sync_portfolio (t_account_id t) (t_action t) (t_ticker t)
    (t_shares t) (t_price t) accounts.

(** The reversal loop of the delete handler (lines 3386-3395). *)
Fixpoint reverse_holdings (act : action) (tk : string) (s : Q)
    (hs : list holding) : list holding :=
  match hs with
  | [] => []
  | h :: rest =>
      if String.eqb (h_ticker h) tk then
        match act with
        | BUY =>
            let sh := h_shares h - s in
            if Qle_bool sh 0 then rest
            else Holding (h_ticker h) sh (h_avg_cost h) :: rest
        | SELL => Holding (h_ticker h) (h_shares h + s) (h_avg_cost h) :: rest
        end
      else h :: reverse_holdings act tk s rest
  end.

Fixpoint reverse_portfolio (acc_id : string) (act : action) (tk : string)
    (s : Q) (accounts : list account) : list account :=
  match accounts with
  | [] => []
  | a :: rest =>
      if String.eqb (a_id a) acc_id
      then Account (a_id a) (a_name a) (reverse_holdings act tk s (a_holdings a)) :: rest
      else a :: reverse_portfolio acc_id act tk s rest
  end.

(** The two documents the handler loads and saves. *)
Record ledger := Ledger {
  trades : list trade;
  accounts : list account
}.

(** The add branch of [manage_trades]: nothing happens unless every form
    field is truthy; the trade is appended to the log, then synced. *)
Definition add_trade (t : trade) (st : ledger) : ledger :=
  if truthy_str (t_account_id t) && truthy_str (t_date t)
     && truthy_str (t_ticker t) && truthy_num (t_shares t)
     && truthy_num (t_price t)
  then Ledger (trades st ++ [t]) (apply_trade t (accounts st))
  else st.

(** [next((t for t in trades if t['id'] == trade_id), None)]. *)
Fixpoint find_trade (tid : string) (ts : list trade) : option trade :=
  match ts with
  | [] => None
  | t :: rest => if String.eqb (t_id t) tid then Some t else find_trade tid rest
  end.

(** The delete branch of [manage_trades]. *)
Definition delete_trade (tid : string) (st : ledger) : ledger :=
  let accounts' :=
    match find_trade tid (trades st) with
    | Some t => reverse_portfolio (t_account_id t) (t_action t) (t_ticker t)
                  (t_shares t) (accounts st)
    | None => accounts st
    end in
  Ledger (filter (fun t => negb (String.eqb (t_id t) tid)) (trades st)) accounts'.

(** What fired the callback. *)
Inductive trade_trigger :=
  | TradeAdd (t : trade)
  | TradeDelete (trade_id : string)
  | TradeView.

(** The state change made by [manage_trades]; the tables it renders are
    left out. *)
Definition manage_trades (trigger : trade_trigger) (st : ledger) : ledger :=
  match trigger with
  | TradeAdd t => add_trade t st
  | TradeDelete trade_id => delete_trade trade_id st
  | TradeView => st
  end.

(** ** Stable sort by a string key: Python's [sorted(xs, key=...)] *)

Section SortedBy.
Context {A : Type} (key : A -> string).

(** [x] goes in front of the first element whose key is not smaller:
    elements with equal keys keep their order. *)
Fixpoint insert_by (x : A) (l : list A) : list A :=
  match l with
  | [] => [x]
  | y :: ys =>
      if String.leb (key x) (key y) then x :: y :: ys
      else y :: insert_by x ys
  end.

Fixpoint sorted_by (l : list A) : list A :=
  match l with
  | [] => []
  | x :: xs => insert_by x (sorted_by xs)
  end.

Definition key_le (x y : A) : Prop := String.le (key x) (key y).
End SortedBy.

(** ** RealizedGainCalculator: [calculate_realized_gains] *)

Record lot := Lot {
  l_shares : Q;
  l_price : Q;
  l_remaining : Q
}.

Record sell_event := SellEvent {
  s_shares : Q;
  s_price : Q
}.

Record gain_record := GainRecord {
  shares_sold : Q;
  cost_basis : Q;
  proceeds : Q;
  gain : Q
}.

Definition lot_of (t : trade) : lot := Lot (t_shares t) (t_price t) (t_shares t).
Definition sell_of (t : trade) : sell_event := SellEvent (t_shares t) (t_price t).

(** One iteration of the grouping loop. *)
Definition group_step (by_ticker : gmap string (list lot * list sell_event))
    (t : trade) : gmap string (list lot * list sell_event) :=
  let e := default ([], []) (by_ticker !! t_ticker t) in
  match t_action t with
  | BUY => <[t_ticker t := (e.1 ++ [lot_of t], e.2)]> by_ticker
  | SELL => <[t_ticker t := (e.1, e.2 ++ [sell_of t])]> by_ticker
  end.

Definition group_trades (ts : list trade) : gmap string (list lot * list sell_event) :=
  fold_left group_step (sorted_by t_date ts) ∅.

(** The inner loop [for buy in data['buys']] for one sell: the lots after
    the loop and the running [total_cost]. *)
Fixpoint consume (shares_to_sell total_cost : Q) (buys : list lot) : list lot * Q :=
  match buys with
  | [] => ([], total_cost)
  | b :: rest =>
      if Qle_bool shares_to_sell 0 then (buys, total_cost)
      else if Qle_bool (l_remaining b) 0 then
        let '(rest', c) := consume shares_to_sell total_cost rest in
        (b :: rest', c)
      else
        let used := pymin (l_remaining b) shares_to_sell in
        let '(rest', c) :=
          consume (shares_to_sell - used) (total_cost + used * l_price b) rest in
        (Lot (l_shares b) (l_price b) (l_remaining b - used) :: rest', c)
  end.

(** The running totals of the loop over the sells. *)
Record totals := Totals {
  tot_buys : list lot;
  total_cost : Q;
  total_proceeds : Q;
  total_shares_sold : Q
}.

Definition sell_step (st : totals) (sell : sell_event) : totals :=
  let proceeds := s_shares sell * s_price sell in
  let '(buys', cost') := consume (s_shares sell) (total_cost st) (tot_buys st) in
  Totals buys' cost' (total_proceeds st + proceeds)
         (total_shares_sold st + s_shares sell).

Definition sell_loop (buys : list lot) (sells : list sell_event) : totals :=
  fold_left sell_step sells (Totals buys 0 0 0).

(** The body of the loop over [by_ticker.items()] for one ticker. *)
Definition realize (data : list lot * list sell_event) : option gain_record :=
  match data.2 with
  | [] => None
  | _ =>
      let st := sell_loop data.1 data.2 in
      if Qltb 0 (total_shares_sold st)
      then Some (GainRecord (total_shares_sold st) (total_cost st)
                   (total_proceeds st) (total_proceeds st - total_cost st))
      else None
  end.

Definition calculate_realized_gains (ts : list trade) : gmap string gain_record :=
  omap realize (group_trades ts).

Definition fifo_example : list trade :=
  [ Trade "t1" "2024-01-01" "a1" "X" BUY 10 100 0 "";
    Trade "t2" "2024-01-02" "a1" "X" BUY 10 110 0 "";
    Trade "t3" "2024-01-03" "a1" "X" SELL 15 130 0 "" ].

(** ** Snapshots: [record_portfolio_snapshot] *)

Record account_value := AccountValue {
  av_name : string;
  av_value : Q;
  av_cost : Q
}.

Record snapshot := Snapshot {
  sn_date : string;
  sn_accounts : gmap string account_value;
  sn_total_value : Q;
  sn_total_cost : Q
}.

(** The loop over the holdings of one account; [price_1d] is the last
    close of the one-day history, [None] when the history is empty or the
    lookup raises. *)
Definition value_holding (price_1d : string -> option Q) (acc : Q * Q)
    (h : holding) : Q * Q :=
  match price_1d (h_ticker h) with
  | Some current_price =>
      (acc.1 + current_price * h_shares h, acc.2 + h_avg_cost h * h_shares h)
  | None => acc
  end.

Definition value_account (price_1d : string -> option Q)
    (st : gmap string account_value * Q * Q) (a : account)
    : gmap string account_value * Q * Q :=
  let '(accounts_data, total_value, total_cost) := st in
  let '(account_value, account_cost) :=
    fold_left (value_holding price_1d) (a_holdings a) (0, 0) in
  (<[a_id a := AccountValue (a_name a) account_value account_cost]> accounts_data,
   total_value + account_value, total_cost + account_cost).

Definition make_snapshot (today : string) (price_1d : string -> option Q)
    (portfolio : list account) : snapshot :=
  let '(accounts_data, total_value, total_cost) :=
    fold_left (value_account price_1d) portfolio (∅, 0, 0) in
  Snapshot today accounts_data total_value total_cost.

(** The loop that removes the first snapshot dated [today]. *)
Fixpoint remove_date (today : string) (snapshots : list snapshot) : list snapshot :=
  match snapshots with
  | [] => []
  | s :: rest =>
      if String.eqb (sn_date s) today then rest
      else s :: remove_date today rest
  end.

(** Python's [xs[-n:]] for a positive [n]. *)
Definition last_n {A} (n : nat) (l : list A) : list A :=
  drop (length l - n) l.

(** The new history once [snap] is appended, sorted and trimmed. *)
Definition upsert_snapshot (snap : snapshot) (snapshots : list snapshot)
    : list snapshot :=
  let today := sn_date snap in
  let existing_dates := map sn_date snapshots in
  let snapshots1 :=
    if existsb (String.eqb today) existing_dates
    then remove_date today snapshots else snapshots in
  last_n 365 (sorted_by sn_date (snapshots1 ++ [snap])).

Definition record_portfolio_snapshot (today : string)
    (price_1d : string -> option Q) (portfolio : list account)
    (snapshots : list snapshot) : list snapshot * snapshot :=
  let snap := make_snapshot today price_1d portfolio in
  (upsert_snapshot snap snapshots, snap).

(** ** ValuationEngine: the series of [create_portfolio_trend_graph] *)

(** A bar's timestamp through its two renderings, ["%Y-%m-%d"] and
    ["%H:%M"]. *)
Record timestamp := Timestamp {
  ts_date : string;
  ts_time : string
}.

Definition intraday (time_filter : string) : bool :=
  String.eqb time_filter "1D" || String.eqb time_filter "1W".

Definition dt_key (time_filter : string) (dt : timestamp) : string :=
  if intraday time_filter then ts_date dt ++ " " ++ ts_time dt
  else ts_date dt.

(** [all_holdings]: the shares per ticker over all accounts, in insertion
    order. *)
Fixpoint add_shares (tk : string) (s : Q) (all : list (string * Q))
    : list (string * Q) :=
  match all with
  | [] => [(tk, 0 + s)]
  | (k, v) :: rest =>
      if String.eqb k tk then (k, v + s) :: rest
      else (k, v) :: add_shares tk s rest
  end.

Definition collect_holdings (portfolio : list account) : list (string * Q) :=
  fold_left
    (fun all a =>
       fold_left (fun all h => add_shares (h_ticker h) (h_shares h) all)
         (a_holdings a) all)
    portfolio [].

(** One close price: [None] is a missing value ([pd.notna] fails). *)
Definition sample := (timestamp * option Q)%type.

Definition add_sample (time_filter : string) (shares : Q)
    (portfolio_values : gmap string Q) (smp : sample) : gmap string Q :=
  match smp.2 with
  | Some price =>
      let k := dt_key time_filter smp.1 in
      <[k := default 0 (portfolio_values !! k) + price * shares]> portfolio_values
  | None => portfolio_values
  end.

(** The loop over [all_holdings.items()]; [hist_data tk] is [None] when
    the ticker has no usable history. *)
Definition add_ticker (time_filter : string)
    (hist_data : string -> option (list sample))
    (portfolio_values : gmap string Q) (e : string * Q) : gmap string Q :=
  match hist_data e.1 with
  | Some close_prices =>
      fold_left (add_sample time_filter e.2) close_prices portfolio_values
  | None => portfolio_values
  end.

Definition price_values (time_filter : string)
    (hist_data : string -> option (list sample))
    (all_holdings : list (string * Q)) : gmap string Q :=
  fold_left (add_ticker time_filter hist_data) all_holdings ∅.

(** The fallback: one value per stored snapshot date, the last one wins. *)
Definition snapshot_values (snapshots : list snapshot) : gmap string Q :=
  fold_left (fun pv s => <[sn_date s := sn_total_value s]> pv) snapshots ∅.

(** [sorted_dates] zipped with [values]. *)
Definition series_of (portfolio_values : gmap string Q) : list (string * Q) :=
  sorted_by fst (map_to_list portfolio_values).

(** What the function draws: an annotation or a series. *)
Inductive figure :=
  | NoHoldings
  | NoHistory
  | Series (points : list (string * Q)).

(** [download] is [None] when [yf.download] raises: the [except] branch
    then plots the stored snapshots as they are. *)
Definition create_portfolio_trend_graph (time_filter : string)
    (download : option (string -> option (list sample)))
    (portfolio : list account) (snapshots : list snapshot) : figure :=
  let all_holdings := collect_holdings portfolio in
  match all_holdings with
  | [] => NoHoldings
  | _ =>
      match download with
      | Some hist_data =>
          let pv := price_values time_filter hist_data all_holdings in
          let pv' := if decide (pv = ∅) then snapshot_values snapshots else pv in
          Series (series_of pv')
      | None =>
          match snapshots with
          | [] => NoHistory
          | _ => Series (map (fun s => (sn_date s, sn_total_value s)) snapshots)
          end
      end
  end.

(** ** RebalanceAdvisor: the suggestions of [update_analytics] *)

Record quick_data := QuickData {
  q_price : Q;
  q_change_1m : Q
}.

Record holding_data := HoldingData {
  hd_value : Q;
  hd_cost : Q;
  hd_shares : Q;
  hd_price : Q;
  hd_change_1m : Q
}.

(** One holding of the gathering loop; [get_stock_quick_data] returns
    [None] when the quote is unavailable. *)
Definition gather_holding (get_stock_quick_data : string -> option quick_data)
    (st : gmap string holding_data * Q) (h : holding)
    : gmap string holding_data * Q :=
  let '(holdings_data, total_value) := st in
  match get_stock_quick_data (h_ticker h) with
  | Some data =>
      let value := q_price data * h_shares h in
      let cost := h_avg_cost h * h_shares h in
      let entry :=
        match holdings_data !! h_ticker h with
        | Some e => HoldingData (hd_value e + value) (hd_cost e + cost)
                      (hd_shares e + h_shares h) (hd_price e) (hd_change_1m e)
        | None => HoldingData value cost (h_shares h) (q_price data)
                    (q_change_1m data)
        end in
      (<[h_ticker h := entry]> holdings_data, total_value + value)
  | None => st
  end.

Definition gather_holdings (get_stock_quick_data : string -> option quick_data)
    (portfolio : list account) : gmap string holding_data * Q :=
  fold_left
    (fun st a => fold_left (gather_holding get_stock_quick_data) (a_holdings a) st)
    portfolio (∅, 0).

Record suggestion := Suggestion {
  sg_action : action;
  sg_amount : Q;
  sg_ticker : string;
  sg_actual_pct : Q;
  sg_target_pct : Q
}.

Definition actual_pct (holdings_data : gmap string holding_data)
    (total_value : Q) (ticker : string) : Q :=
  default 0 (hd_value <$> holdings_data !! ticker) / total_value * 100.

Definition target_pct (target_allocs : gmap string Q) (ticker : string) : Q :=
  default 0 (target_allocs !! ticker).

Definition alloc_diff (holdings_data : gmap string holding_data)
    (target_allocs : gmap string Q) (total_value : Q) (ticker : string) : Q :=
  actual_pct holdings_data total_value ticker - target_pct target_allocs ticker.

(** The body of the loop over the tickers. *)
Definition suggest (holdings_data : gmap string holding_data)
    (target_allocs : gmap string Q) (threshold total_value : Q)
    (ticker : string) : option suggestion :=
  let diff := alloc_diff holdings_data target_allocs total_value ticker in
  if Qltb threshold (Qabs diff) then
    Some (if Qltb 0 diff
          then Suggestion SELL ((diff / 100) * total_value) ticker
                 (actual_pct holdings_data total_value ticker)
                 (target_pct target_allocs ticker)
          else Suggestion BUY (Qabs (diff / 100) * total_value) ticker
                 (actual_pct holdings_data total_value ticker)
                 (target_pct target_allocs ticker))
  else None.

(** [None] is the "Set target allocations" message; the tickers of the
    Python [set] are visited in an order the program does not fix. *)
Definition rebalance (holdings_data : gmap string holding_data)
    (target_allocs : gmap string Q) (threshold total_value : Q)
    : option (list suggestion) :=
  if bool_decide (holdings_data ≠ ∅) && bool_decide (target_allocs ≠ ∅)
     && Qltb 0 total_value
  then Some (omap (suggest holdings_data target_allocs threshold total_value)
               (elements (dom holdings_data ∪ dom target_allocs)))
  else None.

(** The rebalancing part of [update_analytics]: the holdings are gathered
    with live quotes, then compared with the targets of the settings. *)
Definition update_analytics (get_stock_quick_data : string -> option quick_data)
    (portfolio : list account) (target_allocs : gmap string Q)
    (threshold : Q) : option (list suggestion) :=
  let '(holdings_data, total_value) :=
    gather_holdings get_stock_quick_data portfolio in
  rebalance holdings_data target_allocs threshold total_value.

(** ** AlertMonitor: the check of [manage_alerts] *)

Inductive condition := ABOVE | BELOW.

Record alert := Alert {
  al_id : string;
  al_ticker : string;
  al_type : condition;
  al_target_price : Q;
  al_created_date : string;
  al_triggered : bool;
  al_triggered_date : option string
}.

Definition condition_met (a : alert) (current_price : Q) : bool :=
  match al_type a with
  | ABOVE => Qle_bool (al_target_price a) current_price
  | BELOW => Qle_bool current_price (al_target_price a)
  end.

(** One iteration of [for alert in alerts]; [quote] is the price of
    [get_stock_quick_data], [None] when it fails. *)
Definition check_alert (quote : string -> option Q) (now : string)
    (a : alert) : alert :=
  if al_triggered a then a
  else
    match quote (al_ticker a) with
    | Some current_price =>
        if condition_met a current_price
        then Alert (al_id a) (al_ticker a) (al_type a) (al_target_price a)
               (al_created_date a) true (Some now)
        else a
    | None => a
    end.

Definition evaluate (quote : string -> option Q) (now : string)
    (alerts : list alert) : list alert :=
  map (check_alert quote now) alerts.

Inductive alert_trigger :=
  | AlertAdd (id ticker : string) (type : condition) (target_price : Q)
  | AlertDelete (alert_id : string)
  | AlertDismiss (alert_id : string)
  | AlertView.

(** The stored alerts after one run of [manage_alerts]: the user action,
    then the check of every alert. *)
Definition manage_alerts (trigger : alert_trigger)
    (quote : string -> option Q) (now : string) (alerts : list alert)
    : list alert :=
  let alerts1 :=
    match trigger with
    | AlertAdd id ticker type target_price =>
        if truthy_str ticker && truthy_num target_price
        then alerts ++ [Alert id ticker type target_price now false None]
        else alerts
    | AlertDelete alert_id | AlertDismiss alert_id =>
        filter (fun a => al_id a ≠ alert_id) alerts
    | AlertView => alerts
    end in
  evaluate quote now alerts1.


(** ** Concrete ledgers used in the examples *)

Definition ledger_before_buy : ledger :=
  Ledger [] [Account "a1" "Main" [Holding "X" 10 100]].

Definition second_buy : trade :=
  Trade "t1" "2024-01-02" "a1" "X" BUY 10 200 0 "".

Definition closing_sell : trade :=
  Trade "t2" "2024-01-03" "a1" "X" SELL 10 120 0 "".

(** ** Replaying a trade log on the holdings of one account *)













Definition positive_shares (ts : list trade) : Prop :=
  Forall (fun t => 0 < t_shares t) ts.



(** Two trades that agree on every field but [fees]. *)
Definition same_but_fees (t1 t2 : trade) : Prop :=
  t_id t1 = t_id t2 ∧ t_date t1 = t_date t2
  ∧ t_account_id t1 = t_account_id t2 ∧ t_ticker t1 = t_ticker t2
  ∧ t_action t1 = t_action t2 ∧ t_shares t1 = t_shares t2
  ∧ t_price t1 = t_price t2 ∧ t_notes t1 = t_notes t2.

Definition add_trades (ts : list trade) (st : ledger) : ledger :=
  fold_left (fun st t => add_trade t st) ts st.

Definition with_fees (fees : Q) (t : trade) : trade :=
  Trade (t_id t) (t_date t) (t_account_id t) (t_ticker t) (t_action t)
    (t_shares t) (t_price t) fees (t_notes t).

(** ** Sums over trades and lots *)

#[global] Instance action_eq_dec : EqDecision action.
Proof. solve_decision. Defined.

Definition buys_of (tk : string) (ts : list trade) : list trade :=
  filter (fun t => t_ticker t = tk ∧ t_action t = BUY) ts.

Definition sells_of (tk : string) (ts : list trade) : list trade :=
  filter (fun t => t_ticker t = tk ∧ t_action t = SELL) ts.

Fixpoint shares_total (ts : list trade) : Q :=
  match ts with
  | [] => 0
  | t :: rest => t_shares t + shares_total rest
  end.

Fixpoint value_total (ts : list trade) : Q :=
  match ts with
  | [] => 0
  | t :: rest => t_shares t * t_price t + value_total rest
  end.

(** The shares still open in a list of lots, and their cost. *)
Fixpoint avail (buys : list lot) : Q :=
  match buys with
  | [] => 0
  | b :: rest => l_remaining b + avail rest
  end.

Fixpoint rem_value (buys : list lot) : Q :=
  match buys with
  | [] => 0
  | b :: rest => l_remaining b * l_price b + rem_value rest
  end.

Definition lots_ok (buys : list lot) : Prop :=
  Forall (fun b => 0 <= l_remaining b) buys.


Definition oversold_example : list trade :=
  [ Trade "t1" "2024-01-01" "a1" "X" BUY 10 100 0 "";
    Trade "t2" "2024-01-02" "a1" "X" SELL 15 130 0 "" ].

(** ** The alert of the example: above 200 *)

Definition above_200 : alert := Alert "al1" "X" ABOVE 200 "2024-01-01" false None.

Definition quote_at (price : Q) : string -> option Q := fun _ => Some price.

(** ** Histories produced by the recorder *)

(** One page load: the clock, the quotes and the portfolio it sees. *)
Record call := Call {
  c_today : string;
  c_price_1d : string -> option Q;
  c_portfolio : list account
}.

Definition record_call (snapshots : list snapshot) (c : call) : list snapshot :=
  (record_portfolio_snapshot (c_today c) (c_price_1d c) (c_portfolio c) snapshots).1.

(** The stored history after a sequence of calls, from the empty default. *)
Definition record_all (calls : list call) : list snapshot :=
  fold_left record_call calls [].

Definition snapshot_of (c : call) : snapshot :=
  make_snapshot (c_today c) (c_price_1d c) (c_portfolio c).

Definition history_ok (snapshots : list snapshot) : Prop :=
  NoDup (sn_date <$> snapshots)
  ∧ StronglySorted (key_le sn_date) snapshots
  ∧ (length snapshots ≤ 365)%nat.

(** A year and a day of calls on distinct dates, for the cap. *)
Definition day_name (n : nat) : string :=
  String (Ascii.ascii_of_nat (65 + n / 26))
    (String (Ascii.ascii_of_nat (65 + n mod 26)) "").

Definition call_on (n : nat) : call :=
  Call (day_name n) (fun _ => Some 1) [Account "a1" "Main" [Holding "X" 1 1]].

Definition year_of_calls : list call := map call_on (seq 0 365).

(** The history without today's snapshot, as the first lines compute it. *)
Definition without_today (d : string) (h : list snapshot) : list snapshot :=
  if existsb (String.eqb d) (map sn_date h) then remove_date d h else h.

Definition same_day_calls : list call :=
  [ Call "2024-01-01" (fun _ => Some 10) [Account "a1" "Main" [Holding "X" 1 5]];
    Call "2024-01-02" (fun _ => Some 11) [Account "a1" "Main" [Holding "X" 1 5]] ].

Definition same_day_again : call :=
  Call "2024-01-02" (fun _ => Some 12) [Account "a1" "Main" [Holding "X" 1 5]].

(** ** The portfolios of the boundary example: 100 dollars in total *)

Definition holdings_with_x (value_x : Q) : gmap string holding_data :=
  <["X" := HoldingData value_x 0 1 value_x 0]>
    (<["Y" := HoldingData (100 - value_x) 0 1 (100 - value_x) 0]> ∅).

Definition target_x_20 : gmap string Q := <["X" := 20]> ∅.

(** ** What the series should hold *)










(** ** Invariants of an account's holdings *)

Definition unique_tickers (hs : list holding) : Prop := NoDup (h_ticker <$> hs).

Definition positive_holdings (hs : list holding) : Prop :=
  Forall (fun h => 0 < h_shares h) hs.

Definition two_accounts : list account :=
  [ Account "a1" "Main" [Holding "X" 10 100; Holding "Y" 4 50];
    Account "a2" "IRA" [Holding "X" 3 90] ].

Definition sell_unheld : trade :=
  Trade "t9" "2024-02-01" "a2" "Y" SELL 2 55 0 "".

(** ** Relations between trade logs *)

(** Two trades that agree on what the realized gains read. *)
Definition same_for_gains (t1 t2 : trade) : Prop :=
  t_date t1 = t_date t2 ∧ t_ticker t1 = t_ticker t2
  ∧ t_action t1 = t_action t2 ∧ t_shares t1 = t_shares t2
  ∧ t_price t1 = t_price t2.

Definition nonneg_prices (ts : list trade) : Prop :=
  Forall (fun t => 0 <= t_price t) ts.

Definition in_account (acc_id : string) (t : trade) : trade :=
  Trade (t_id t) (t_date t) acc_id (t_ticker t) (t_action t)
    (t_shares t) (t_price t) (t_fees t) (t_notes t).

Definition shuffled_fifo_example : list trade :=
  [ Trade "t3" "2024-01-03" "a1" "X" SELL 15 130 0 "";
    Trade "t1" "2024-01-01" "a1" "X" BUY 10 100 0 "";
    Trade "t2" "2024-01-02" "a1" "X" BUY 10 110 0 "" ].

Definition flat_price_example : list trade :=
  [ Trade "t1" "2024-01-01" "a1" "X" BUY 10 100 0 "";
    Trade "t2" "2024-01-02" "a2" "X" BUY 10 100 0 "";
    Trade "t3" "2024-01-03" "a1" "X" SELL 15 130 0 "" ].

(** ** Sums the snapshot and the series are compared with *)

(** The market value and the cost of the holdings that have a quote. *)
Fixpoint held_value (price_1d : string -> option Q) (hs : list holding) : Q :=
  match hs with
  | [] => 0
  | h :: rest =>
      match price_1d (h_ticker h) with
      | Some current_price => current_price * h_shares h + held_value price_1d rest
      | None => held_value price_1d rest
      end
  end.

Fixpoint held_cost (price_1d : string -> option Q) (hs : list holding) : Q :=
  match hs with
  | [] => 0
  | h :: rest =>
      match price_1d (h_ticker h) with
      | Some _ => h_avg_cost h * h_shares h + held_cost price_1d rest
      | None => held_cost price_1d rest
      end
  end.

Fixpoint portfolio_value (price_1d : string -> option Q) (portfolio : list account) : Q :=
  match portfolio with
  | [] => 0
  | a :: rest => held_value price_1d (a_holdings a) + portfolio_value price_1d rest
  end.

Fixpoint portfolio_cost (price_1d : string -> option Q) (portfolio : list account) : Q :=
  match portfolio with
  | [] => 0
  | a :: rest => held_cost price_1d (a_holdings a) + portfolio_cost price_1d rest
  end.

(** The shares of one ticker in a list of holdings, and over all accounts. *)
Fixpoint shares_held (tk : string) (hs : list holding) : Q :=
  match hs with
  | [] => 0
  | h :: rest =>
      if String.eqb (h_ticker h) tk then h_shares h + shares_held tk rest
      else shares_held tk rest
  end.

Fixpoint shares_held_all (tk : string) (portfolio : list account) : Q :=
  match portfolio with
  | [] => 0
  | a :: rest => shares_held tk (a_holdings a) + shares_held_all tk rest
  end.

(** Lookup in [all_holdings]. *)
Fixpoint assoc (tk : string) (all : list (string * Q)) : option Q :=
  match all with
  | [] => None
  | (k, v) :: rest => if String.eqb k tk then Some v else assoc tk rest
  end.

Definition quote_some : string -> option Q :=
  fun tk => if String.eqb tk "Y" then None else Some 7.

(** ** The padded value axis (lines 1107-1115 and 1169-1175) *)

(** Python's [max(a, b)]: the first argument unless the second is larger. *)
Definition pymax (a b : Q) : Q := if Qltb a b then b else a.

(** [min(values)] and [max(values)] started at the first value. *)
Fixpoint min_from (x : Q) (l : list Q) : Q :=
  match l with
  | [] => x
  | y :: rest => min_from (if Qltb y x then y else x) rest
  end.

Fixpoint max_from (x : Q) (l : list Q) : Q :=
  match l with
  | [] => x
  | y :: rest => max_from (if Qltb x y then y else x) rest
  end.

(** [(y_min, y_max)]; the literals 0.1 and 0.05 are taken as exact. *)
Definition axis_range (values : list Q) : Q * Q :=
  match values with
  | [] => (0, 100)
  | v :: rest =>
      let min_val := min_from v rest in
      let max_val := max_from v rest in
      let padding :=
        if negb (Qeq_bool max_val min_val)
        then (max_val - min_val) * (1 # 10)
        else max_val * (5 # 100) in
      (pymax 0 (min_val - padding), max_val + padding)
  end.

Definition no_history : string -> option (list sample) := fun _ => None.

(** ** Sums over a dictionary *)

Fixpoint sumQ (l : list Q) : Q :=
  match l with
  | [] => 0
  | x :: rest => x + sumQ rest
  end.

(** The sum of [f] over the entries of a dictionary, whatever their order. *)
Definition map_sum {A} (f : string -> A -> Q) (m : gmap string A) : Q :=
  sumQ ((fun e => f e.1 e.2) <$> map_to_list m).

Definition held_value_of (holdings_data : gmap string holding_data)
    (ticker : string) : Q :=
  default 0 (hd_value <$> holdings_data !! ticker).

Definition quick_7 : string -> option quick_data :=
  fun tk => if String.eqb tk "Y" then None else Some (QuickData 7 0).

(** ** The forms as the callbacks receive them *)

(** [upper_strip] stands for Python's [s.upper().strip()]; an empty
    string stands for an empty or missing text field, [None] for an
    empty number field or dropdown. *)
Section Forms.
Context (upper_strip : string -> string).

Definition truthy_opt (x : option Q) : bool :=
  match x with Some v => truthy_num v | None => false end.

(** The add branch of [manage_trades] on the raw form (lines 3318-3372). *)
Definition add_trade_form (id account_id trade_date : string)
    (act : option action) (ticker : string) (shares price fees : option Q)
    (notes : string) (st : ledger) : ledger :=
  match act, shares, price with
  | Some act, Some shares, Some price =>
      if truthy_str account_id && truthy_str trade_date && truthy_str ticker
         && truthy_num shares && truthy_num price
      then
        let new_trade :=
          Trade id trade_date account_id (upper_strip ticker) act shares price
            (if truthy_opt fees then default 0 fees else 0) notes in
        Ledger (trades st ++ [new_trade]) (apply_trade new_trade (accounts st))
      else st
  | _, _, _ => st
  end.

(** The add branch of [manage_alerts] followed by the check of all
    alerts (lines 5297-5359). *)
Definition add_alert_form (id ticker : string) (type : option condition)
    (target_price : option Q) (quote : string -> option Q) (now : string)
    (alerts : list alert) : list alert :=
  let alerts1 :=
    match type, target_price with
    | Some type, Some target =>
        if truthy_str ticker && truthy_num target
        then alerts ++ [Alert id (upper_strip ticker) type target now false None]
        else alerts
    | _, _ => alerts
    end in
  evaluate quote now alerts1.
End Forms.

(** ** The watchlist: [manage_watchlist] *)



Section Watchlist.
Context (upper_strip : string -> string) (has_price : string -> bool).

End Watchlist.

(** ** Accounts and holdings edited by hand: [manage_portfolio] *)


(** The loop shared by the holding-remove branch (lines 2948-2952) and by
    [delete_portfolio_holding] (lines 5751-5754): the first account with
    the id loses every holding with the ticker. *)
Fixpoint remove_holding (account_id ticker : string)
    (accounts : list account) : list account :=
  match accounts with
  | [] => []
  | acc :: rest =>
      if String.eqb (a_id acc) account_id
      then Account (a_id acc) (a_name acc)
             (filter (fun h => h_ticker h ≠ ticker) (a_holdings acc)) :: rest
      else acc :: remove_holding account_id ticker rest
  end.

Definition delete_portfolio_holding (account_id ticker : string)
    (accounts : list account) : list account :=
  remove_holding account_id ticker accounts.

Section Portfolio.
Context (upper_strip strip : string -> string) (has_price : string -> bool).



End Portfolio.


(** ** The holdings import: [handle_trades_csv_import] *)

(** A row of the file as the loop reads it: the two text columns after
    [strip()], and [float(...)] of the amount, [None] when it raises. *)
Record csv_row := CsvRow {
  r_account : string;
  r_ticker : string;
  r_shares : option Q
}.

Definition CRYPTO_MAP : gmap string string :=
  list_to_map [("BTC", "BTC-USD"); ("ETH", "ETH-USD"); ("SOL", "SOL-USD");
               ("XRP", "XRP-USD"); ("DOGE", "DOGE-USD")].

(** What the import carries from row to row. *)
Record import_state := ImportState {
  i_accounts : list account;
  i_trades : list trade;
  i_account_map : gmap string string;
  i_prices_fetched : gmap string Q;
  i_ids : nat
}.

(** The inner loop over the holdings (lines 3236-3245); [None] is the
    division by zero. *)
Fixpoint import_existing (yf_ticker : string) (shares price : Q)
    (hs : list holding) : option (list holding * bool) :=
  match hs with
  | [] => Some ([], false)
  | h :: rest =>
      if String.eqb (h_ticker h) yf_ticker then
        let old_total := h_shares h * h_avg_cost h in
        let new_total := shares * price in
        let new_shares := h_shares h + shares in
        if Qeq_bool new_shares 0 then None
        else Some (Holding (h_ticker h) new_shares
                     ((old_total + new_total) / new_shares) :: rest, true)
      else
        match import_existing yf_ticker shares price rest with
        | Some (rest', found) => Some (h :: rest', found)
        | None => None
        end
  end.

Definition import_holdings (yf_ticker : string) (shares price : Q)
    (hs : list holding) : option (list holding) :=
  match import_existing yf_ticker shares price hs with
  | Some (hs', found) =>
      Some (if found then hs' else hs' ++ [Holding yf_ticker shares price])
  | None => None
  end.

(** The loop over the accounts (lines 3233-3267): the new accounts and
    whether an account with the id was found. *)
Fixpoint import_account (account_id yf_ticker : string) (shares price : Q)
    (accounts : list account) : option (list account * bool) :=
  match accounts with
  | [] => Some ([], false)
  | acc :: rest =>
      if String.eqb (a_id acc) account_id then
        match import_holdings yf_ticker shares price (a_holdings acc) with
        | Some hs' => Some (Account (a_id acc) (a_name acc) hs' :: rest, true)
        | None => None
        end
      else
        match import_account account_id yf_ticker shares price rest with
        | Some (rest', found) => Some (acc :: rest', found)
        | None => None
        end
  end.

Section HoldingsImport.
(** [uuid4 n] is the [n]-th identifier drawn during the import and
    [yf_price t] what the price lookup of lines 3083-3091 gives for the
    Yahoo ticker [t] (0 when it fails). *)
Context (upper_strip : string -> string) (uuid4 : nat -> string)
  (yf_price : string -> Q).

Definition _get_yf_ticker_for_import (ticker : string) : string :=
  default (upper_strip ticker) (CRYPTO_MAP !! upper_strip ticker).

Definition _get_current_price_for_import (ticker : string) : Q :=
  yf_price (_get_yf_ticker_for_import ticker).

(** The account of the row is created when its name is unknown
    (lines 3211-3219). *)
Definition ensure_account (account_name : string) (st : import_state)
    : import_state :=
  match i_account_map st !! account_name with
  | Some _ => st
  | None =>
      let new_id := uuid4 (i_ids st) in
      ImportState (i_accounts st ++ [Account new_id account_name []])
        (i_trades st) (<[account_name := new_id]> (i_account_map st))
        (i_prices_fetched st) (S (i_ids st))
  end.

(** The price is looked up once per Yahoo ticker (lines 3225-3226). *)
Definition fetch_price (ticker : string) (prices_fetched : gmap string Q)
    : gmap string Q :=
  let yf_ticker := _get_yf_ticker_for_import ticker in
  match prices_fetched !! yf_ticker with
  | Some _ => prices_fetched
  | None => <[yf_ticker := _get_current_price_for_import ticker]> prices_fetched
  end.

(** One turn of the loop over the rows (lines 3202-3267); [None] when
    an exception leaves the loop. *)
Definition import_row (today filename : string) (st : import_state)
    (row : csv_row) : option import_state :=
  let account_name := r_account row in
  let ticker := r_ticker row in
  match r_shares row with
  | None => None
  | Some shares =>
      if negb (truthy_str account_name) || negb (truthy_str ticker)
         || Qle_bool shares 0
      then Some st
      else
        let st1 := ensure_account account_name st in
        match i_account_map st1 !! account_name with
        | None => None
        | Some account_id =>
            let yf_ticker := _get_yf_ticker_for_import ticker in
            let prices := fetch_price ticker (i_prices_fetched st1) in
            match prices !! yf_ticker with
            | None => None
            | Some price =>
                if Qle_bool price 0
                then Some (ImportState (i_accounts st1) (i_trades st1)
                             (i_account_map st1) prices (i_ids st1))
                else
                  match import_account account_id yf_ticker shares price
                          (i_accounts st1) with
                  | None => None
                  | Some (accounts', true) =>
                      Some (ImportState accounts'
                              (i_trades st1 ++
                                 [Trade (uuid4 (i_ids st1)) today account_id
                                    yf_ticker BUY shares price 0
                                    ("Imported from " ++ filename)%string])
                              (i_account_map st1) prices (S (i_ids st1)))
                  | Some (accounts', false) =>
                      Some (ImportState accounts' (i_trades st1)
                              (i_account_map st1) prices (i_ids st1))
                  end
            end
        end
  end.

Fixpoint import_rows (today filename : string) (st : import_state)
    (rows : list csv_row) : option import_state :=
  match rows with
  | [] => Some st
  | row :: rest =>
      match import_row today filename st row with
      | Some st' => import_rows today filename st' rest
      | None => None
      end
  end.

(** [{acc['name']: acc['id'] for acc in accounts}]: a later account with
    the same name replaces the earlier one. *)
Definition account_map_of (accounts : list account) : gmap string string :=
  fold_left (fun m acc => <[a_name acc := a_id acc]> m) accounts ∅.

(** The two documents after the import; an exception stores nothing
    (lines 3180-3285). *)
Definition handle_trades_csv_import (today filename : string)
    (rows : list csv_row) (st : ledger) : ledger :=
  match import_rows today filename
          (ImportState (accounts st) (trades st) (account_map_of (accounts st)) ∅ 0)
          rows with
  | Some s => Ledger (i_trades s) (i_accounts s)
  | None => st
  end.
End HoldingsImport.

Definition uuid_n (n : nat) : string := "id" ++ day_name n.

Definition import_file : list csv_row :=
  [ CsvRow "IRA" "x" (Some 2); CsvRow "New" "btc" (Some 1);
    CsvRow "" "Z" (Some 5); CsvRow "Main" "Q" (Some 3) ].

Definition import_prices : string -> Q :=
  fun t => if String.eqb t "Q" then 0 else 80.

(** ** What an import may do *)





(** ** Expenses: duplicates, categories and month totals *)

(** An expense document; a field is [None] when the key is missing. *)
Record expense := Expense {
  e_date : option string;
  e_description : option string;
  e_amount : option Q;
  e_category : option string
}.

(** Python's [kw in s] on strings. *)
Fixpoint contains (kw s : string) : bool :=
  String.prefix kw s
  || match s with
     | EmptyString => false
     | String _ rest => contains kw rest
     end.

Definition keywords : list (string * list string) :=
  [ ("Dining", ["restaurant"; "cafe"; "coffee"; "doordash"; "uber eats";
                "grubhub"; "mcdonald"; "starbucks"; "chipotle"; "pizza";
                "food"; "deli"; "bakery"; "grill"; "kitchen"; "taco";
                "burger"; "sushi"]);
    ("Shopping", ["amazon"; "ebay"; "etsy"; "walmart"; "target"; "best buy";
                  "apple"; "clothing"; "shoes"; "trader joe"; "safeway";
                  "grocery"; "costco"; "whole foods"; "merchandise"; "store";
                  "market"]);
    ("Gas", ["shell"; "exxon"; "chevron"; "bp "; "gas"; "fuel"; "speedway";
             "arco"; "gasoline"; "automotive"]);
    ("Entertainment", ["netflix"; "spotify"; "hulu"; "disney"; "amazon prime";
                       "movie"; "theater"; "concert"; "game"; "playstation";
                       "xbox"; "ticketmaster"; "golf"; "badminton"; "sports"]);
    ("Bills", ["electric"; "water"; "utility"; "internet"; "phone"; "at&t";
               "verizon"; "t-mobile"; "comcast"; "insurance"; "rent";
               "mortgage"; "service"]);
    ("Travel", ["airline"; "hotel"; "airbnb"; "uber"; "lyft"; "parking";
                "toll"; "flight"; "southwest"; "delta"; "united"; "caltrain";
                "transit"; "airfare"; "air france"]);
    ("Subscriptions", ["subscription"; "membership"; "annual"; "monthly";
                       "paramount"; "cable"]) ].

(** The loop over the keyword table (lines 4297-4303). *)
Fixpoint first_category (desc_lower : string) (categories : list string)
    (table : list (string * list string)) : string :=
  match table with
  | [] => "Other"
  | (category, kws) :: rest =>
      if bool_decide (category ∈ categories)
         && existsb (fun kw => contains kw desc_lower) kws
      then category
      else first_category desc_lower categories rest
  end.

Section Expenses.
(** [lower] stands for [str.lower()] and [format_2f] for the format
    [:.2f] of a float. *)
Context (lower : string -> string) (format_2f : Q -> string).

Definition auto_categorize (description : string) (categories : list string)
    : string :=
  first_category (lower description) categories keywords.

Definition get_expense_hash (e : expense) : string :=
  (default "" (e_date e) ++ "|"
   ++ String.substring 0 50 (lower (default "" (e_description e))) ++ "|"
   ++ format_2f (default 0 (e_amount e)))%string.

Definition find_duplicates (new_expenses existing_expenses : list expense)
    : list expense * list expense :=
  let existing_hashes : gset string :=
    list_to_set (get_expense_hash <$> existing_expenses) in
  fold_left
    (fun '(unique, duplicates) exp =>
       if bool_decide (get_expense_hash exp ∈ existing_hashes)
       then (unique, duplicates ++ [exp])
       else (unique ++ [exp], duplicates))
    new_expenses ([], []).
End Expenses.

(** Python's [sum(...)]: a left fold from 0. *)
Definition py_sum (l : list Q) : Q := fold_left Qplus l 0.

(** The month's expenses, their total and the totals per category of
    [update_expense_overview] (lines 4384-4385 and 4429-4432). *)
Definition month_expenses (current_month : string) (expenses : list expense)
    : list expense :=
  filter (fun e => String.prefix current_month (default "" (e_date e)) = true)
    expenses.

Definition total_spent (month_expenses : list expense) : Q :=
  py_sum ((fun e => default 0 (e_amount e)) <$> month_expenses).

Definition cat_totals (month_expenses : list expense) : gmap string Q :=
  fold_left
    (fun totals e =>
       let c := default "Other" (e_category e) in
       <[c := default 0 (totals !! c) + default 0 (e_amount e)]> totals)
    month_expenses ∅.

(** ** Returns shown with a quote: [calc_return] and [format_change] *)

(** [calc_return] of [get_stock_quick_data] for the price found at the
    past date, [None] when there is none (lines 952-958). *)
Definition calc_return (current_price : Q) (past_price : option Q) : Q :=
  match past_price with
  | Some past_price =>
      if Qltb 0 past_price
      then ((current_price - past_price) / past_price) * 100
      else 0
  | None => 0
  end.

(** The class chosen by [format_change] (lines 973-976). *)
Definition format_change_class (val : Q) : string :=
  if Qle_bool 0 val then "positive" else "negative".

Definition category_of (e : expense) : string := default "Other" (e_category e).
Definition amount_of (e : expense) : Q := default 0 (e_amount e).

(** ** Recurring income: the generate branch of [display_recurring_income] *)

Record income_entry := Income {
  in_id : string;
  in_date : option string;
  in_type : string;
  in_source : option string;
  in_amount : Q
}.

Record recurring := Recurring {
  rec_id : string;
  rec_description : string;
  rec_amount : Q;
  rec_weeks_interval : Z;
  rec_start_date : string;
  rec_active : bool
}.

(** The first recurring source with the id. *)
Fixpoint find_recurring (id : string) (recs : list recurring) : option recurring :=
  match recs with
  | [] => None
  | rec :: rest =>
      if String.eqb (rec_id rec) id then Some rec else find_recurring id rest
  end.

Section Recurring.
(** Days are counted as integers: [parse_date] stands for
    [datetime.strptime(s, "%Y-%m-%d")], [None] when it raises, and
    [format_date] for [strftime("%Y-%m-%d")]; [uuid4 n] is the [n]-th
    identifier drawn. *)
Context (parse_date : string -> option Z) (format_date : Z -> string)
  (uuid4 : nat -> string).

(** The loop [while current_date <= today] (lines 3856-3867), run for at
    most [fuel] turns. *)
Fixpoint generate_loop (fuel : nat) (today : Z) (existing_dates : list (option string))
    (rec : recurring) (current_date : Z) (income : list income_entry)
    (ids : nat) : option (list income_entry * nat) :=
  match fuel with
  | O => None
  | S fuel' =>
      if (current_date <=? today)%Z then
        let date_str := format_date current_date in
        let '(income', ids') :=
          if bool_decide (Some date_str ∈ existing_dates)
          then (income, ids)
          else (income ++ [Income (uuid4 ids) (Some date_str) "SALARY"
                             (Some (rec_description rec)) (rec_amount rec)],
                S ids) in
        generate_loop fuel' today existing_dates rec
          (current_date + 7 * rec_weeks_interval rec)%Z income' ids'
      else Some (income, ids)
  end.

(** The generate branch (lines 3840-3869) on the income entries and the
    number of identifiers drawn so far. *)
Definition generate (fuel : nat) (today : Z) (id : string)
    (recs : list recurring) (income : list income_entry) (ids : nat)
    : option (list income_entry * nat) :=
  match find_recurring id recs with
  | None => Some (income, ids)
  | Some rec =>
      match parse_date (rec_start_date rec) with
      | None => None
      | Some start =>
          let existing_dates :=
            in_date <$>
              filter (fun i => in_source i = Some (rec_description rec)) income in
          generate_loop fuel today existing_dates rec start income ids
      end
  end.
End Recurring.

(** An entry made for a recurring source. *)
Definition generated_for (rec : recurring) (e : income_entry) : Prop :=
  in_source e = Some (rec_description rec) /\ in_type e = "SALARY"
  /\ in_amount e = rec_amount rec.

Definition salary : recurring :=
  Recurring "r1" "Salary" 2000 2 "D0" true.

Definition day_of (s : string) : option Z :=
  if String.eqb s "D0" then Some 0%Z else None.

Definition show_day (d : Z) : string := day_name (Z.to_nat d).

(** * Properties *)

(** ** Comparisons *)

Lemma Qltb_lt (a b : Q) : Qltb a b = true <-> a < b.
Proof.
  unfold Qltb. rewrite negb_true_iff. split.
  - intros H. apply Qnot_le_lt. intros Hle.
    apply Qle_bool_iff in Hle. congruence.
  - intros H. destruct (Qle_bool b a) eqn:E; [|reflexivity].
    apply Qle_bool_iff in E. exfalso. apply (Qlt_not_le _ _ H E).
Qed.

Lemma Qltb_ge (a b : Q) : Qltb a b = false <-> b <= a.
Proof.
  unfold Qltb. rewrite negb_false_iff. apply Qle_bool_iff.
Qed.

Lemma Qle_bool_false (a b : Q) : Qle_bool a b = false <-> b < a.
Proof.
  rewrite <- Qltb_lt. unfold Qltb. rewrite negb_true_iff. reflexivity.
Qed.


(** ** ApplyTrade *)

Lemma eqb_ne (a b : string) : a ≠ b → String.eqb a b = false.
Proof. intros H. apply String.eqb_neq. exact H. Qed.

Lemma sync_existing_absent act tk s p hs :
  no_holding tk hs → sync_existing act tk s p hs = (hs, false).
Proof.
  induction 1 as [|x l Hx _ IH]; simpl; [reflexivity|].
  rewrite (eqb_ne _ _ Hx), IH. reflexivity.
Qed.

Lemma sync_existing_present act tk s p pre h post :
  no_holding tk pre → h_ticker h = tk →
  sync_existing act tk s p (pre ++ h :: post) =
  (pre ++ match update_holding act s p h with
          | Some h' => h' :: post
          | None => post
          end, true).
Proof.
  intros Hpre Hh. induction Hpre as [|x l Hx _ IH]; simpl.
  - rewrite Hh, String.eqb_refl. reflexivity.
  - rewrite (eqb_ne _ _ Hx), IH. reflexivity.
Qed.

Lemma sync_portfolio_account acc_id act tk s p pre a post :
  Forall (fun x => a_id x ≠ acc_id) pre → a_id a = acc_id →
  sync_portfolio acc_id act tk s p (pre ++ a :: post) =
  pre ++ Account (a_id a) (a_name a) (sync_holdings act tk s p (a_holdings a)) :: post.
Proof.
  intros Hpre Ha. induction Hpre as [|x l Hx _ IH]; simpl.
  - rewrite Ha, String.eqb_refl. reflexivity.
  - rewrite (eqb_ne _ _ Hx), IH. reflexivity.
Qed.

(** C3: the postcondition of one ApplyTrade.  A BUY on an existing holding
    adds the shares and sets avg_cost to the weighted formula; a BUY
    without a holding appends one at the trade price; a SELL subtracts
    the shares and removes the holding when the result is not positive;
    the change is made in the first account with the trade's account id. *)
Theorem apply_trade_postcondition (tk : string) (s p : Q) :
  (∀ pre h post,
      no_holding tk pre → h_ticker h = tk → 0 < s → 0 <= h_shares h →
      sync_holdings BUY tk s p (pre ++ h :: post) =
      pre ++ Holding tk (h_shares h + s)
               ((h_shares h * h_avg_cost h + s * p) / (h_shares h + s)) :: post)
  ∧ (∀ hs, no_holding tk hs →
      sync_holdings BUY tk s p hs = hs ++ [Holding tk s p])
  ∧ (∀ pre h post,
      no_holding tk pre → h_ticker h = tk →
      sync_holdings SELL tk s p (pre ++ h :: post) =
      if Qle_bool (h_shares h - s) 0 then pre ++ post
      else pre ++ Holding tk (h_shares h - s) (h_avg_cost h) :: post)
  ∧ (∀ t pre a post,
      t_ticker t = tk → t_shares t = s → t_price t = p →
      Forall (fun x => a_id x ≠ t_account_id t) pre → a_id a = t_account_id t →
      apply_trade t (pre ++ a :: post) =
      pre ++ Account (a_id a) (a_name a)
               (sync_holdings (t_action t) tk s p (a_holdings a)) :: post).
Proof.
  repeat split.
  - intros pre h post Hpre Hh Hs Hsh. unfold sync_holdings.
    rewrite (sync_existing_present _ _ _ _ _ _ _ Hpre Hh). simpl.
    assert (Hpos : Qltb 0 (h_shares h + s) = true).
    { apply Qltb_lt. apply Qlt_le_trans with (0 + s).
      - rewrite Qplus_0_l. exact Hs.
      - apply Qplus_le_l. exact Hsh. }
    rewrite Hpos, Hh. reflexivity.
  - intros hs Hhs. unfold sync_holdings.
    rewrite (sync_existing_absent _ _ _ _ _ Hhs). reflexivity.
  - intros pre h post Hpre Hh. unfold sync_holdings.
    rewrite (sync_existing_present _ _ _ _ _ _ _ Hpre Hh). simpl.
    destruct (Qle_bool (h_shares h - s) 0); rewrite ?Hh; reflexivity.
  - intros t pre a post Htk Hs Hp Hpre Ha. unfold apply_trade.
    rewrite Htk, Hs, Hp. apply sync_portfolio_account; assumption.
Qed.

Lemma apply_trade_postcondition_witness :
  sync_holdings BUY "X" 10 200 [Holding "X" 10 100] =
  [Holding "X" (10 + 10) ((10 * 100 + 10 * 200) / (10 + 10))].
Proof.
  apply (proj1 (apply_trade_postcondition "X" 10 200) [] (Holding "X" 10 100) []).
  - constructor.
  - reflexivity.
  - reflexivity.
  - discriminate.
Defined.

(** ** Reversal *)

Lemma reverse_holdings_present act tk s pre h post :
  no_holding tk pre → h_ticker h = tk →
  reverse_holdings act tk s (pre ++ h :: post) =
  pre ++ match act with
         | BUY => if Qle_bool (h_shares h - s) 0 then post
                  else Holding (h_ticker h) (h_shares h - s) (h_avg_cost h) :: post
         | SELL => Holding (h_ticker h) (h_shares h + s) (h_avg_cost h) :: post
         end.
Proof.
  intros Hpre Hh. induction Hpre as [|x l Hx _ IH]; simpl.
  - rewrite Hh, String.eqb_refl. reflexivity.
  - rewrite (eqb_ne _ _ Hx), IH. reflexivity.
Qed.

(** What the reversal does undo: a BUY that opened the position. *)
Lemma reverse_opening_buy tk s p hs :
  no_holding tk hs →
  reverse_holdings BUY tk s (sync_holdings BUY tk s p hs) = hs.
Proof.
  intros Hhs. unfold sync_holdings.
  rewrite (sync_existing_absent _ _ _ _ _ Hhs).
  rewrite (reverse_holdings_present BUY tk s hs (Holding tk s p) [] Hhs eq_refl).
  simpl. assert (E : Qle_bool (s - s) 0 = true) by (apply Qle_bool_iff; lra).
  rewrite E. apply app_nil_r.
Qed.

(** And a SELL that left shares behind, up to the value of the shares. *)
Lemma reverse_partial_sell tk s p pre h post :
  no_holding tk pre → h_ticker h = tk → s < h_shares h →
  ∃ sh, reverse_holdings SELL tk s (sync_holdings SELL tk s p (pre ++ h :: post)) =
          pre ++ Holding tk sh (h_avg_cost h) :: post
        ∧ sh == h_shares h.
Proof.
  intros Hpre Hh Hs. unfold sync_holdings.
  rewrite (sync_existing_present _ _ _ _ _ _ _ Hpre Hh). simpl.
  assert (E : Qle_bool (h_shares h - s) 0 = false)
    by (apply Qle_bool_false; lra).
  rewrite E.
  rewrite (reverse_holdings_present SELL tk s pre
             (Holding (h_ticker h) (h_shares h - s) (h_avg_cost h)) post Hpre Hh).
  simpl.
  eexists. split; [rewrite Hh; reflexivity|]. lra.
Qed.

(** C1: adding a BUY of 10 at 200 to a holding of 10 at 100 and deleting
    that trade again leaves the holding at 10 shares with avg_cost 150,
    not 100; adding a SELL of the whole position and deleting it again
    leaves the account without the holding. *)
Theorem reverse_trade_not_inverse :
  (∃ h, accounts (manage_trades (TradeDelete "t1")
                    (manage_trades (TradeAdd second_buy) ledger_before_buy)) =
          [Account "a1" "Main" [h]]
        ∧ h_ticker h = "X" ∧ h_shares h == 10 ∧ h_avg_cost h == 150
        ∧ ¬ h_avg_cost h == 100)
  ∧ accounts (manage_trades (TradeDelete "t2")
                (manage_trades (TradeAdd closing_sell) ledger_before_buy)) =
    [Account "a1" "Main" []]
  ∧ accounts ledger_before_buy = [Account "a1" "Main" [Holding "X" 10 100]]
  ∧ trades (manage_trades (TradeDelete "t1")
              (manage_trades (TradeAdd second_buy) ledger_before_buy)) = []
  ∧ trades (manage_trades (TradeDelete "t2")
              (manage_trades (TradeAdd closing_sell) ledger_before_buy)) = [].
Proof.
  split; [|repeat split; vm_compute; reflexivity].
  eexists. split; [vm_compute; reflexivity|].
  repeat split; simpl; try reflexivity. discriminate.
Qed.

(** ** Replay of a log for one ticker *)

Lemma update_holding_ticker act s p h h' :
  update_holding act s p h = Some h' → h_ticker h' = h_ticker h.
Proof.
  destruct act; simpl.
  - intros [= <-]. reflexivity.
  - destruct (Qle_bool _ _); [discriminate|]. intros [= <-]. reflexivity.
Qed.



















(** ** Fees *)

Lemma add_trade_fees t1 t2 st1 st2 :
  same_but_fees t1 t2 → accounts st1 = accounts st2 →
  Forall2 same_but_fees (trades st1) (trades st2) →
  accounts (add_trade t1 st1) = accounts (add_trade t2 st2)
  ∧ Forall2 same_but_fees (trades (add_trade t1 st1)) (trades (add_trade t2 st2)).
Proof.
  intros Ht Ha Hl.
  destruct Ht as (Hid & Hd & Hacc & Htk & Hact & Hs & Hp & Hn).
  unfold add_trade, apply_trade. rewrite Hd, Hacc, Htk, Hact, Hs, Hp, Ha.
  destruct (truthy_str _ && truthy_str _ && truthy_str _ && truthy_num _ && truthy_num _);
    simpl; [|auto].
  split; [reflexivity|]. apply Forall2_app; [exact Hl|].
  constructor; [|constructor]. repeat split; assumption.
Qed.

Lemma add_trades_fees ts1 ts2 :
  Forall2 same_but_fees ts1 ts2 → ∀ st1 st2,
  accounts st1 = accounts st2 →
  Forall2 same_but_fees (trades st1) (trades st2) →
  accounts (add_trades ts1 st1) = accounts (add_trades ts2 st2)
  ∧ Forall2 same_but_fees (trades (add_trades ts1 st1)) (trades (add_trades ts2 st2)).
Proof.
  induction 1 as [|t1 t2 l1 l2 Ht _ IH]; intros st1 st2 Ha Hl; [auto|].
  unfold add_trades in *. simpl.
  destruct (add_trade_fees _ _ _ _ Ht Ha Hl) as [Ha' Hl']. apply IH; assumption.
Qed.

Lemma insert_by_fees x y l1 l2 :
  same_but_fees x y → Forall2 same_but_fees l1 l2 →
  Forall2 same_but_fees (insert_by t_date x l1) (insert_by t_date y l2).
Proof.
  intros Hxy. induction 1 as [|a b l1 l2 Hab Hl IH]; simpl.
  - constructor; [exact Hxy | constructor].
  - assert (Hd : t_date x = t_date y) by apply Hxy.
    assert (Hd' : t_date a = t_date b) by apply Hab.
    rewrite Hd, Hd'.
    destruct (String.leb (t_date y) (t_date b)).
    + constructor; [exact Hxy|]. constructor; assumption.
    + constructor; [exact Hab | exact IH].
Qed.

Lemma sorted_by_fees l1 l2 :
  Forall2 same_but_fees l1 l2 →
  Forall2 same_but_fees (sorted_by t_date l1) (sorted_by t_date l2).
Proof.
  induction 1; simpl; [constructor|]. apply insert_by_fees; assumption.
Qed.

Lemma group_step_fees m t1 t2 :
  same_but_fees t1 t2 → group_step m t1 = group_step m t2.
Proof.
  intros (_ & _ & _ & Htk & Hact & Hs & Hp & _).
  unfold group_step, lot_of, sell_of. rewrite Htk, Hact, Hs, Hp. reflexivity.
Qed.

Lemma realized_gains_fees l1 l2 :
  Forall2 same_but_fees l1 l2 →
  calculate_realized_gains l1 = calculate_realized_gains l2.
Proof.
  intros H. unfold calculate_realized_gains, group_trades. f_equal.
  apply sorted_by_fees in H. generalize (∅ : gmap string (list lot * list sell_event)).
  induction H as [|a b l1' l2' Hab _ IH]; intros m; simpl; [reflexivity|].
  rewrite (group_step_fees _ _ _ Hab). apply IH.
Qed.

(** C10: two trade logs that differ only in their fees, added to ledgers
    that agree up to fees, give the same accounts (holdings with their
    shares and avg_cost) and the same realized-gain records. *)
Theorem fees_never_influence (ts1 ts2 : list trade) (st1 st2 : ledger) :
  Forall2 same_but_fees ts1 ts2 →
  accounts st1 = accounts st2 →
  Forall2 same_but_fees (trades st1) (trades st2) →
  accounts (add_trades ts1 st1) = accounts (add_trades ts2 st2)
  ∧ calculate_realized_gains (trades (add_trades ts1 st1)) =
    calculate_realized_gains (trades (add_trades ts2 st2)).
Proof.
  intros Hts Ha Hl.
  destruct (add_trades_fees _ _ Hts _ _ Ha Hl) as [Ha' Hl'].
  split; [exact Ha'|]. apply realized_gains_fees. exact Hl'.
Qed.

Lemma fees_never_influence_witness :
  accounts (add_trades fifo_example (Ledger [] [Account "a1" "Main" []])) =
  accounts (add_trades (map (with_fees 7) fifo_example)
              (Ledger [] [Account "a1" "Main" []]))
  ∧ calculate_realized_gains
      (trades (add_trades fifo_example (Ledger [] [Account "a1" "Main" []]))) =
    calculate_realized_gains
      (trades (add_trades (map (with_fees 7) fifo_example)
                 (Ledger [] [Account "a1" "Main" []]))).
Proof.
  apply fees_never_influence.
  - repeat constructor.
  - reflexivity.
  - constructor.
Defined.

(** ** The stable sort *)

Section SortedByFacts.
Context {A : Type} (key : A -> string).

#[local] Instance key_le_trans : Transitive (key_le key).
Proof. intros x y z. unfold key_le. apply transitivity. Qed.

Lemma key_le_total x y : key_le key x y ∨ key_le key y x.
Proof. unfold key_le. apply total, _. Qed.

Lemma leb_key_le x y : String.leb (key x) (key y) = true ↔ key_le key x y.
Proof. unfold key_le, String.le. symmetry. apply Is_true_true. Qed.

Lemma insert_by_perm x l : insert_by key x l ≡ₚ x :: l.
Proof.
  induction l as [|y ys IH]; simpl; [reflexivity|].
  destruct (String.leb (key x) (key y)); [reflexivity|].
  rewrite IH. apply Permutation_swap.
Qed.

Lemma sorted_by_perm l : sorted_by key l ≡ₚ l.
Proof.
  induction l as [|x xs IH]; simpl; [reflexivity|].
  rewrite insert_by_perm, IH. reflexivity.
Qed.

Lemma insert_by_hd y x l :
  key_le key y x → HdRel (key_le key) y l → HdRel (key_le key) y (insert_by key x l).
Proof.
  intros Hyx Hl. destruct l as [|z zs]; simpl.
  - constructor. exact Hyx.
  - destruct (String.leb (key x) (key z)); constructor; [exact Hyx|].
    inversion Hl; assumption.
Qed.

Lemma insert_by_sorted x l :
  Sorted (key_le key) l → Sorted (key_le key) (insert_by key x l).
Proof.
  induction 1 as [|y ys Hys IH Hhd]; simpl.
  - repeat constructor.
  - destruct (String.leb (key x) (key y)) eqn:E.
    + constructor; [constructor; assumption|]. constructor.
      apply leb_key_le. exact E.
    + constructor; [exact IH|]. apply insert_by_hd; [|exact Hhd].
      destruct (key_le_total x y) as [H|H]; [|exact H].
      apply leb_key_le in H. congruence.
Qed.

Lemma sorted_by_sorted l : Sorted (key_le key) (sorted_by key l).
Proof.
  induction l as [|x xs IH]; simpl; [constructor|].
  apply insert_by_sorted. exact IH.
Qed.

Lemma sorted_by_strongly_sorted l :
  StronglySorted (key_le key) (sorted_by key l).
Proof. apply Sorted_StronglySorted; [apply _ | apply sorted_by_sorted]. Qed.

(** A list that is already in order is left as it is. *)
Lemma insert_by_front x l :
  Forall (key_le key x) l → insert_by key x l = x :: l.
Proof.
  destruct 1 as [|y ys Hy _]; simpl; [reflexivity|].
  apply leb_key_le in Hy. rewrite Hy. reflexivity.
Qed.

Lemma sorted_by_id l : StronglySorted (key_le key) l → sorted_by key l = l.
Proof.
  induction 1 as [|x xs _ IH Hx]; simpl; [reflexivity|].
  rewrite IH. apply insert_by_front. exact Hx.
Qed.
End SortedByFacts.

Example sorted_by_stable :
  sorted_by fst [("b", 1%nat); ("a", 2%nat); ("b", 3%nat); ("a", 4%nat)] =
  [("a", 2%nat); ("a", 4%nat); ("b", 1%nat); ("b", 3%nat)].
Proof. reflexivity. Qed.

(** ** Realized gains *)

Lemma group_fold_lookup tk l : ∀ m,
  default ([], []) (fold_left group_step l m !! tk) =
  ((default ([], []) (m !! tk)).1 ++ map lot_of (buys_of tk l),
   (default ([], []) (m !! tk)).2 ++ map sell_of (sells_of tk l)).
Proof.
  unfold buys_of, sells_of.
  induction l as [|t l IH]; intros m; simpl.
  - rewrite !app_nil_r. destruct (default _ _); reflexivity.
  - rewrite IH. unfold group_step.
    destruct (decide (t_ticker t = tk)) as [Ht|Ht].
    + rewrite Ht. destruct (t_action t) eqn:Ha.
      * rewrite lookup_insert_eq. simpl.
        rewrite filter_cons_True by (split; assumption).
        rewrite filter_cons_False by (intros [_ ?]; congruence).
        simpl. rewrite <- app_assoc. reflexivity.
      * rewrite lookup_insert_eq. simpl.
        rewrite filter_cons_False by (intros [_ ?]; congruence).
        rewrite filter_cons_True by (split; assumption).
        simpl. rewrite <- app_assoc. reflexivity.
    + rewrite !filter_cons_False by (intros [? _]; congruence).
      destruct (t_action t); rewrite lookup_insert_ne by exact Ht; reflexivity.
Qed.

Lemma realized_gains_lookup ts tk :
  calculate_realized_gains ts !! tk =
  realize (map lot_of (buys_of tk (sorted_by t_date ts)),
           map sell_of (sells_of tk (sorted_by t_date ts))).
Proof.
  unfold calculate_realized_gains. rewrite lookup_omap.
  pose proof (group_fold_lookup tk (sorted_by t_date ts) ∅) as E.
  rewrite lookup_empty in E. simpl in E. fold (group_trades ts) in E.
  rewrite <- E. destruct (group_trades ts !! tk); reflexivity.
Qed.


Lemma pymin_cases a b :
  (b < a ∧ pymin a b = b) ∨ (a <= b ∧ pymin a b = a).
Proof.
  unfold pymin. destruct (Qltb b a) eqn:E.
  - left. split; [apply Qltb_lt; exact E | reflexivity].
  - right. split; [apply Qltb_ge; exact E | reflexivity].
Qed.

Lemma avail_nonneg buys : lots_ok buys → 0 <= avail buys.
Proof. induction 1 as [|b l Hb _ IH]; simpl; lra. Qed.

(** What one sell takes from the lots. *)
Lemma consume_spec buys : ∀ q c buys' c',
  0 <= q → lots_ok buys → consume q c buys = (buys', c') →
  lots_ok buys'
  ∧ (q <= avail buys → avail buys' == avail buys - q)
  ∧ (avail buys <= q → avail buys' == 0)
  ∧ c' + rem_value buys' == c + rem_value buys.
Proof.
  induction buys as [|b rest IH]; intros q c buys' c' Hq Hok; simpl.
  - intros [= <- <-]. simpl. repeat split; [constructor | lra..].
  - inversion Hok as [|? ? Hb Hrest]; subst.
    pose proof (avail_nonneg _ Hrest) as Hav.
    destruct (Qle_bool q 0) eqn:Eq.
    { apply Qle_bool_iff in Eq. intros [= <- <-]. simpl.
      repeat split; [exact Hok | lra..]. }
    apply Qle_bool_false in Eq.
    destruct (Qle_bool (l_remaining b) 0) eqn:Eb.
    { apply Qle_bool_iff in Eb.
      destruct (consume q c rest) as [rest' c1] eqn:Er. intros [= <- <-].
      destruct (IH _ _ _ _ Hq Hrest Er) as (Hok' & H1 & H2 & H3). simpl.
      repeat split.
      - constructor; assumption.
      - intros H. rewrite H1; lra.
      - intros H. rewrite H2; lra.
      - lra. }
    apply Qle_bool_false in Eb.
    destruct (consume (q - pymin (l_remaining b) q)
                (c + pymin (l_remaining b) q * l_price b) rest)
      as [rest' c1] eqn:Er.
    intros [= <- <-].
    destruct (pymin_cases (l_remaining b) q) as [[Hlt Hm]|[Hle Hm]];
      rewrite Hm in *.
    + assert (Hq' : 0 <= q - q) by lra.
      destruct (IH _ _ _ _ Hq' Hrest Er) as (Hok' & H1 & H2 & H3). simpl.
      repeat split.
      * constructor; [simpl; lra | exact Hok'].
      * intros H. rewrite H1; lra.
      * intros H. lra.
      * lra.
    + assert (Hq' : 0 <= q - l_remaining b) by lra.
      destruct (IH _ _ _ _ Hq' Hrest Er) as (Hok' & H1 & H2 & H3). simpl.
      repeat split.
      * constructor; [simpl; lra | exact Hok'].
      * intros H. rewrite H1; lra.
      * intros H. rewrite H2; lra.
      * lra.
Qed.

Lemma avail_zero buys :
  lots_ok buys → avail buys == 0 →
  Forall (fun b => l_remaining b == 0) buys ∧ rem_value buys == 0.
Proof.
  induction 1 as [|b l Hb Hl IH]; simpl; intros Hz.
  - split; [constructor | reflexivity].
  - pose proof (avail_nonneg _ Hl) as Hav.
    assert (Hb0 : l_remaining b == 0) by lra.
    destruct IH as [IH1 IH2]; [lra|]. split; [constructor; assumption|].
    rewrite Hb0, IH2. ring.
Qed.

Lemma shares_total_nonneg ts : positive_shares ts → 0 <= shares_total ts.
Proof. induction 1 as [|t l Ht _ IH]; simpl; lra. Qed.

Lemma lots_of_trades bs :
  positive_shares bs →
  lots_ok (map lot_of bs)
  ∧ avail (map lot_of bs) = shares_total bs
  ∧ rem_value (map lot_of bs) = value_total bs.
Proof.
  induction 1 as [|t l Ht _ (IH1 & IH2 & IH3)]; simpl.
  - repeat split. constructor.
  - rewrite IH2, IH3. repeat split. constructor; [simpl; lra | exact IH1].
Qed.

(** The loop over the sells of one ticker. *)
Lemma sell_fold_spec ss : ∀ st,
  positive_shares ss → lots_ok (tot_buys st) →
  lots_ok (tot_buys (fold_left sell_step (map sell_of ss) st))
  ∧ (avail (tot_buys st) <= shares_total ss →
       avail (tot_buys (fold_left sell_step (map sell_of ss) st)) == 0)
  ∧ total_cost (fold_left sell_step (map sell_of ss) st)
      + rem_value (tot_buys (fold_left sell_step (map sell_of ss) st))
    == total_cost st + rem_value (tot_buys st)
  ∧ total_proceeds (fold_left sell_step (map sell_of ss) st)
    == total_proceeds st + value_total ss
  ∧ total_shares_sold (fold_left sell_step (map sell_of ss) st)
    == total_shares_sold st + shares_total ss.
Proof.
  induction ss as [|t ss IH]; intros st Hpos Hok; simpl.
  - repeat split; [exact Hok | | lra..].
    intros H. pose proof (avail_nonneg _ Hok). lra.
  - inversion Hpos as [|? ? Ht Hpos']; subst.
    pose proof (shares_total_nonneg _ Hpos') as Hnn.
    unfold sell_step at 2 4 6 8 10 12. simpl.
    destruct (consume (t_shares t) (total_cost st) (tot_buys st))
      as [buys' cost'] eqn:Ec.
    destruct (consume_spec _ _ _ _ _ (Qlt_le_weak _ _ Ht) Hok Ec)
      as (Hok' & H1 & H2 & H3).
    destruct (IH (Totals buys' cost'
                    (total_proceeds st + t_shares t * t_price t)
                    (total_shares_sold st + t_shares t)) Hpos' Hok')
      as (G0 & G1 & G2 & G3 & G4).
    simpl in *. repeat split.
    + exact G0.
    + intros H. apply G1.
      destruct (Qlt_le_dec (t_shares t) (avail (tot_buys st))) as [Hlt|Hge].
      * rewrite H1; lra.
      * rewrite H2; lra.
    + rewrite G2. exact H3.
    + rewrite G3. lra.
    + rewrite G4. lra.
Qed.

Lemma shares_total_perm l1 l2 : l1 ≡ₚ l2 → shares_total l1 == shares_total l2.
Proof.
  induction 1; simpl; lra.
Qed.

Lemma value_total_perm l1 l2 : l1 ≡ₚ l2 → value_total l1 == value_total l2.
Proof.
  induction 1; simpl; lra.
Qed.

Lemma positive_shares_filter (P : trade → Prop) `{∀ t, Decision (P t)} ts :
  positive_shares ts → positive_shares (filter P ts).
Proof.
  unfold positive_shares. intros Hts. apply Forall_forall. intros x Hx.
  apply list_elem_of_filter in Hx as [_ Hx].
  revert x Hx. apply Forall_forall. exact Hts.
Qed.

Lemma positive_shares_sorted ts :
  positive_shares ts → positive_shares (sorted_by t_date ts).
Proof.
  unfold positive_shares. intros H.
  rewrite (sorted_by_perm t_date ts). exact H.
Qed.

(** C9: when the SELL shares of a ticker exceed its BUY shares the ticker
    is still reported: every lot ends with nothing remaining, the proceeds
    count every share sold, and the cost basis is the cost of the lots
    alone, so the shares without a matching lot add nothing to it. *)
Theorem oversell_not_rejected (ts : list trade) (tk : string) :
  positive_shares ts →
  shares_total (buys_of tk ts) < shares_total (sells_of tk ts) →
  ∃ r, calculate_realized_gains ts !! tk = Some r
       ∧ shares_sold r == shares_total (sells_of tk ts)
       ∧ proceeds r == value_total (sells_of tk ts)
       ∧ cost_basis r == value_total (buys_of tk ts)
       ∧ gain r = proceeds r - cost_basis r
       ∧ Forall (fun b => l_remaining b == 0)
           (tot_buys (sell_loop
                        (map lot_of (buys_of tk (sorted_by t_date ts)))
                        (map sell_of (sells_of tk (sorted_by t_date ts))))).
Proof.
  intros Hpos Hover. rewrite realized_gains_lookup.
  pose proof (sorted_by_perm t_date ts) as Hperm.
  assert (Hb : buys_of tk (sorted_by t_date ts) ≡ₚ buys_of tk ts)
    by (unfold buys_of; rewrite Hperm; reflexivity).
  assert (Hs : sells_of tk (sorted_by t_date ts) ≡ₚ sells_of tk ts)
    by (unfold sells_of; rewrite Hperm; reflexivity).
  pose proof (shares_total_perm _ _ Hb) as Eb.
  pose proof (shares_total_perm _ _ Hs) as Es.
  pose proof (value_total_perm _ _ Hb) as Evb.
  pose proof (value_total_perm _ _ Hs) as Evs.
  rewrite <- Eb, <- Es in Hover.
  pose proof (positive_shares_sorted _ Hpos) as Hpos'.
  set (bs := buys_of tk (sorted_by t_date ts)) in *.
  set (ss := sells_of tk (sorted_by t_date ts)) in *.
  assert (Hpb : positive_shares bs) by (apply positive_shares_filter; exact Hpos').
  assert (Hps : positive_shares ss) by (apply positive_shares_filter; exact Hpos').
  destruct (lots_of_trades bs Hpb) as (Hok & Hav & Hval).
  pose proof (shares_total_nonneg _ Hpb) as Hbn.
  destruct (sell_fold_spec ss (Totals (map lot_of bs) 0 0 0) Hps Hok)
    as (Hok' & Hz & Hcost & Hpro & Hsold).
  simpl in Hz, Hcost, Hpro, Hsold. rewrite Hav in Hz. rewrite Hval in Hcost.
  fold (sell_loop (map lot_of bs) (map sell_of ss)) in *.
  destruct (avail_zero _ Hok' (Hz ltac:(lra))) as [Hall Hrv].
  unfold realize. simpl.
  destruct (map sell_of ss) as [|s0 sl] eqn:Ess.
  { destruct ss; [simpl in Hover; lra | discriminate]. }
  rewrite <- Ess in *. clear Ess s0 sl.
  assert (Hgt : Qltb 0 (total_shares_sold (sell_loop (map lot_of bs) (map sell_of ss))) = true).
  { apply Qltb_lt. rewrite Hsold. lra. }
  rewrite Hgt. eexists. split; [reflexivity|]. simpl.
  repeat split; [lra | lra | lra | exact Hall].
Qed.

Lemma oversell_not_rejected_witness :
  ∃ r, calculate_realized_gains oversold_example !! "X" = Some r
       ∧ shares_sold r == 15 ∧ proceeds r == 1950 ∧ cost_basis r == 1000.
Proof.
  destruct (oversell_not_rejected oversold_example "X")
    as (r & Hr & Hsold & Hpro & Hcost & _).
  - repeat constructor.
  - reflexivity.
  - exists r. split; [exact Hr|]. split; [exact Hsold|].
    split; [exact Hpro | exact Hcost].
Defined.

Example fifo_example_value :
  calculate_realized_gains fifo_example !! "X" =
  Some (GainRecord 15 1550 1950 400).
Proof. vm_compute. reflexivity. Qed.


Lemma realize_gain data r :
  realize data = Some r → gain r = proceeds r - cost_basis r.
Proof.
  unfold realize. destruct (data.2); [discriminate|].
  destruct (Qltb 0 _); [|discriminate]. intros [= <-]. reflexivity.
Qed.



(** ** Alerts *)



Lemma check_alert_fires quote now a :
  al_triggered a = false →
  (al_triggered (check_alert quote now a) = true ↔
   ∃ price, quote (al_ticker a) = Some price ∧ condition_met a price = true).
Proof.
  intros Ha. unfold check_alert. rewrite Ha.
  destruct (quote (al_ticker a)) as [p|].
  - destruct (condition_met a p) eqn:E; simpl.
    + split; [intros _; exists p; auto | reflexivity].
    + rewrite Ha. split; [discriminate|].
      intros (p' & [= <-] & Hp). congruence.
  - rewrite Ha. split; [discriminate|]. intros (p' & Hp & _). discriminate.
Qed.





(** ** Snapshot history *)

Lemma make_snapshot_date today price_1d portfolio :
  sn_date (make_snapshot today price_1d portfolio) = today.
Proof.
  unfold make_snapshot.
  destruct (fold_left _ _ _) as [[? ?] ?]. reflexivity.
Qed.

Lemma record_call_upsert h c :
  record_call h c = upsert_snapshot (snapshot_of c) h.
Proof. reflexivity. Qed.

Lemma remove_date_elem d h x :
  x ∈ remove_date d h → x ∈ h.
Proof.
  induction h as [|y l IH]; simpl; [auto|].
  destruct (String.eqb (sn_date y) d).
  - intros H. right. exact H.
  - intros [->|H]%elem_of_cons; [left | right; auto].
Qed.

Lemma remove_date_absent d h :
  NoDup (sn_date <$> h) → d ∉ (sn_date <$> remove_date d h).
Proof.
  induction h as [|y l IH]; simpl; intros Hnd.
  - apply not_elem_of_nil.
  - apply NoDup_cons in Hnd as [Hy Hl].
    destruct (String.eqb (sn_date y) d) eqn:E.
    + apply String.eqb_eq in E. subst d. exact Hy.
    + apply String.eqb_neq in E. simpl.
      intros [->|H]%elem_of_cons; [congruence | exact (IH Hl H)].
Qed.

Lemma remove_date_nodup d h :
  NoDup (sn_date <$> h) → NoDup (sn_date <$> remove_date d h).
Proof.
  induction h as [|y l IH]; simpl; intros Hnd; [exact Hnd|].
  apply NoDup_cons in Hnd as [Hy Hl].
  destruct (String.eqb (sn_date y) d); [exact Hl|].
  simpl. apply NoDup_cons. split; [|auto].
  intros H. apply Hy. apply list_elem_of_fmap in H as (x & Hx & Hin).
  apply list_elem_of_fmap. exists x. split; [exact Hx|].
  apply (remove_date_elem _ _ _ Hin).
Qed.

Lemma remove_date_sorted d h :
  StronglySorted (key_le sn_date) h →
  StronglySorted (key_le sn_date) (remove_date d h).
Proof.
  induction 1 as [|y l Hl IH Hy]; simpl; [constructor|].
  destruct (String.eqb (sn_date y) d); [exact Hl|].
  constructor; [exact IH|]. apply Forall_forall. intros x Hx.
  apply remove_date_elem in Hx. revert x Hx. apply Forall_forall. exact Hy.
Qed.

Lemma existsb_date d h :
  existsb (String.eqb d) (map sn_date h) = false → d ∉ (sn_date <$> h).
Proof.
  induction h as [|y l IH]; simpl; intros H.
  - apply not_elem_of_nil.
  - apply orb_false_iff in H as [Hy Hl]. apply String.eqb_neq in Hy.
    intros [->|Hin]%elem_of_cons; [congruence | exact (IH Hl Hin)].
Qed.

Lemma upsert_unfold s h :
  upsert_snapshot s h =
  last_n 365 (sorted_by sn_date (without_today (sn_date s) h ++ [s])).
Proof. reflexivity. Qed.

Lemma without_today_spec d h :
  NoDup (sn_date <$> h) →
  NoDup (sn_date <$> without_today d h)
  ∧ (d ∉ (sn_date <$> without_today d h))
  ∧ (∀ x, x ∈ without_today d h → x ∈ h).
Proof.
  intros Hnd. unfold without_today.
  destruct (existsb _ _) eqn:E.
  - split; [apply remove_date_nodup; exact Hnd|].
    split; [apply remove_date_absent; exact Hnd|].
    intros x. apply remove_date_elem.
  - split; [exact Hnd|]. split; [apply existsb_date; exact E | auto].
Qed.

Lemma last_n_elem {A} n (l : list A) x : x ∈ last_n n l → x ∈ l.
Proof.
  unfold last_n. intros H.
  apply (subseteq_drop _ l _ H).
Qed.

Lemma last_n_length {A} n (l : list A) : (length (last_n n l) ≤ n)%nat.
Proof. unfold last_n. rewrite length_drop. lia. Qed.

Lemma upsert_elem s h x :
  x ∈ upsert_snapshot s h → x = s ∨ x ∈ without_today (sn_date s) h.
Proof.
  rewrite upsert_unfold. intros H. apply last_n_elem in H.
  rewrite sorted_by_perm in H.
  apply elem_of_app in H as [H|H]; [right; exact H|].
  left. apply list_elem_of_singleton in H. exact H.
Qed.

Lemma upsert_ok s h :
  NoDup (sn_date <$> h) → history_ok (upsert_snapshot s h).
Proof.
  intros Hnd. destruct (without_today_spec (sn_date s) h Hnd) as (Hw & Hd & _).
  rewrite upsert_unfold.
  set (l := sorted_by sn_date (without_today (sn_date s) h ++ [s])).
  assert (Hl : NoDup (sn_date <$> l)).
  { subst l. rewrite sorted_by_perm, fmap_app. simpl.
    apply NoDup_app. split; [exact Hw|]. split; [|apply NoDup_singleton].
    intros x Hx Hs. apply list_elem_of_singleton in Hs. subst x. exact (Hd Hx). }
  assert (Hs : StronglySorted (key_le sn_date) l)
    by apply sorted_by_strongly_sorted.
  unfold history_ok, last_n. split; [|split].
  - rewrite fmap_drop. apply (sublist_NoDup _ _ Hl (sublist_drop _ _)).
  - rewrite <- (take_drop (length l - 365) l) in Hs.
    apply StronglySorted_app_1_r in Hs. exact Hs.
  - rewrite length_drop. lia.
Qed.

(** Order and bound hold whatever was stored before. *)
Lemma upsert_sorted_bounded s h :
  StronglySorted (key_le sn_date) (upsert_snapshot s h)
  ∧ (length (upsert_snapshot s h) ≤ 365)%nat.
Proof.
  rewrite upsert_unfold.
  set (l := sorted_by sn_date (without_today (sn_date s) h ++ [s])).
  pose proof (sorted_by_strongly_sorted sn_date
                (without_today (sn_date s) h ++ [s])) as Hs.
  fold l in Hs. unfold last_n. split.
  - rewrite <- (take_drop (length l - 365) l) in Hs.
    apply StronglySorted_app_1_r in Hs. exact Hs.
  - rewrite length_drop. lia.
Qed.

Lemma record_all_ok calls : history_ok (record_all calls).
Proof.
  unfold record_all.
  assert (G : ∀ h, history_ok h → history_ok (fold_left record_call calls h)).
  { induction calls as [|c calls IH]; intros h Hh; simpl; [exact Hh|].
    apply IH. rewrite record_call_upsert. apply upsert_ok. apply Hh. }
  apply G. split; [constructor|]. split; [constructor | simpl; lia].
Qed.

Lemma without_today_fresh d h :
  d ∉ (sn_date <$> h) → without_today d h = h.
Proof.
  intros Hd. unfold without_today.
  destruct (existsb _ _) eqn:E; [|reflexivity].
  exfalso. apply Hd. apply existsb_exists in E as (x & Hx & Hdx).
  apply String.eqb_eq in Hdx. subst x. apply list_elem_of_In. exact Hx.
Qed.

Lemma without_today_sorted d h :
  StronglySorted (key_le sn_date) h →
  StronglySorted (key_le sn_date) (without_today d h).
Proof.
  intros H. unfold without_today.
  destruct (existsb _ _); [apply remove_date_sorted|]; exact H.
Qed.

(** When the clock has not gone back, the new snapshot ends the history. *)
Lemma upsert_latest s h :
  history_ok h → Forall (fun x => key_le sn_date x s) h →
  last (upsert_snapshot s h) = Some s.
Proof.
  intros (Hnd & Hs & _) Hle. rewrite upsert_unfold.
  destruct (without_today_spec (sn_date s) h Hnd) as (_ & _ & Hsub).
  set (w := without_today (sn_date s) h) in *.
  assert (Hw : StronglySorted (key_le sn_date) (w ++ [s])).
  { apply StronglySorted_app_2.
    - intros x1 x2 H1 H2. apply list_elem_of_singleton in H2. subst x2.
      apply Hsub in H1. revert x1 H1. apply Forall_forall. exact Hle.
    - apply without_today_sorted. exact Hs.
    - repeat constructor. }
  rewrite (sorted_by_id _ _ Hw). unfold last_n.
  rewrite drop_app_le by (rewrite length_app; simpl; lia).
  apply last_snoc.
Qed.

(** A full history and a new date: the head of the sorted list goes. *)
Lemma upsert_full s h :
  length h = 365%nat → sn_date s ∉ (sn_date <$> h) →
  ∃ oldest,
    sorted_by sn_date (h ++ [s]) = oldest :: upsert_snapshot s h
    ∧ Forall (key_le sn_date oldest) (upsert_snapshot s h)
    ∧ length (upsert_snapshot s h) = 365%nat.
Proof.
  intros Hlen Hd. rewrite upsert_unfold, (without_today_fresh _ _ Hd).
  pose proof (sorted_by_strongly_sorted sn_date (h ++ [s])) as Hs.
  pose proof (Permutation_length (sorted_by_perm sn_date (h ++ [s]))) as Hl.
  rewrite length_app, Hlen in Hl. simpl in Hl.
  unfold last_n. rewrite Hl.
  destruct (sorted_by sn_date (h ++ [s])) as [|oldest rest]; [discriminate|].
  exists oldest. simpl in *. rewrite drop_0.
  split; [reflexivity|]. split; [|lia].
  inversion Hs; assumption.
Qed.

Lemma key_inj {A} (key : A → string) (l : list A) x y :
  NoDup (key <$> l) → x ∈ l → y ∈ l → key x = key y → x = y.
Proof.
  induction l as [|a l IH]; intros Hnd Hx Hy Hk; [inversion Hx|].
  simpl in Hnd. apply NoDup_cons in Hnd as [Ha Hnd].
  apply elem_of_cons in Hx as [->|Hx]; apply elem_of_cons in Hy as [->|Hy].
  - reflexivity.
  - exfalso. apply Ha. rewrite Hk. apply list_elem_of_fmap. eauto.
  - exfalso. apply Ha. rewrite <- Hk. apply list_elem_of_fmap. eauto.
  - apply IH; assumption.
Qed.

(** Two date-ordered lists with the same snapshots, one per date, are the
    same list. *)
Lemma sorted_unique_by_key {A} (key : A → string) (l1 l2 : list A) :
  NoDup (key <$> l1) →
  StronglySorted (key_le key) l1 → StronglySorted (key_le key) l2 →
  l1 ≡ₚ l2 → l1 = l2.
Proof.
  intros Hnd H1 H2 Hp. apply (StronglySorted_unique_strong (key_le key)); auto.
  intros x1 x2 Hx1 Hx2 Hle Hge. rewrite <- Hp in Hx2.
  apply (key_inj key l1); auto.
  unfold key_le in *. apply (anti_symm String.le); assumption.
Qed.

Lemma remove_date_readd s l :
  NoDup (sn_date <$> l) → s ∈ l → remove_date (sn_date s) l ++ [s] ≡ₚ l.
Proof.
  induction l as [|y l IH]; intros Hnd Hs; [inversion Hs|]. simpl.
  destruct (String.eqb (sn_date y) (sn_date s)) eqn:E.
  - apply String.eqb_eq in E.
    assert (y = s) as ->.
    { apply (key_inj sn_date (y :: l)); auto. left. }
    symmetry. apply Permutation_cons_append.
  - apply String.eqb_neq in E. simpl in Hnd. apply NoDup_cons in Hnd as [_ Hnd].
    apply elem_of_cons in Hs as [->|Hs]; [congruence|].
    simpl. rewrite IH by assumption. reflexivity.
Qed.

Lemma remove_date_length d l : (length (remove_date d l) ≤ length l)%nat.
Proof.
  induction l as [|y l IH]; simpl; [lia|].
  destruct (String.eqb (sn_date y) d); simpl; lia.
Qed.

Lemma without_today_length d l : (length (without_today d l) ≤ length l)%nat.
Proof.
  unfold without_today. destruct (existsb _ _); [apply remove_date_length | lia].
Qed.

Lemma upsert_candidates_nodup s h :
  NoDup (sn_date <$> h) →
  NoDup (sn_date <$> sorted_by sn_date (without_today (sn_date s) h ++ [s])).
Proof.
  intros Hnd. destruct (without_today_spec (sn_date s) h Hnd) as (Hw & Hd & _).
  rewrite sorted_by_perm, fmap_app. simpl.
  apply NoDup_app. split; [exact Hw|]. split; [|apply NoDup_singleton].
  intros x Hx Hs. apply list_elem_of_singleton in Hs. subst x. exact (Hd Hx).
Qed.

(** Recording the same snapshot again changes nothing. *)
Lemma upsert_idem s h :
  history_ok h → upsert_snapshot s (upsert_snapshot s h) = upsert_snapshot s h.
Proof.
  intros (Hnd & _ & Hlen).
  destruct (upsert_ok s h Hnd) as (HndL & HsL & HlenL).
  pose proof (upsert_candidates_nodup s h Hnd) as Hnd1.
  pose proof (sorted_by_strongly_sorted sn_date
                (without_today (sn_date s) h ++ [s])) as Hs1.
  assert (Hlen1 : (length (sorted_by sn_date (without_today (sn_date s) h ++ [s]))
                   ≤ 366)%nat).
  { rewrite (Permutation_length (sorted_by_perm _ _)), length_app. simpl.
    pose proof (without_today_length (sn_date s) h). lia. }
  assert (Hs1in : s ∈ sorted_by sn_date (without_today (sn_date s) h ++ [s])).
  { rewrite sorted_by_perm. apply elem_of_app. right. left. }
  assert (Hd : ∀ x, x ∈ upsert_snapshot s h → sn_date x = sn_date s → x = s).
  { intros x Hx Hdx. apply upsert_elem in Hx as [Hx|Hx]; [exact Hx|].
    destruct (without_today_spec (sn_date s) h Hnd) as (_ & Hno & _).
    exfalso. apply Hno. apply list_elem_of_fmap. exists x.
    split; [symmetry; exact Hdx | exact Hx]. }
  rewrite (upsert_unfold s (upsert_snapshot s h)).
  set (L := upsert_snapshot s h) in *.
  destruct (decide (sn_date s ∈ sn_date <$> L)) as [Hdin|Hfresh].
  - assert (Hin : s ∈ L).
    { apply list_elem_of_fmap in Hdin as (x & Hx & Hxin).
      rewrite <- (Hd x Hxin (eq_sym Hx)). exact Hxin. }
    assert (Hp : without_today (sn_date s) L ++ [s] ≡ₚ L).
    { unfold without_today. destruct (existsb _ _) eqn:E.
      - apply remove_date_readd; assumption.
      - apply existsb_date in E. exfalso. apply E.
        apply list_elem_of_fmap. eauto. }
    assert (E : sorted_by sn_date (without_today (sn_date s) L ++ [s]) = L).
    { symmetry. apply (sorted_unique_by_key sn_date); auto.
      - apply sorted_by_strongly_sorted.
      - rewrite sorted_by_perm. symmetry. exact Hp. }
    rewrite E. unfold last_n.
    replace (length L - 365)%nat with 0%nat by lia. apply drop_0.
  - assert (Hout : s ∉ L).
    { intros H. apply Hfresh. apply list_elem_of_fmap. eauto. }
    rewrite (without_today_fresh _ _ Hfresh).
    subst L. rewrite upsert_unfold in *.
    set (l1 := sorted_by sn_date (without_today (sn_date s) h ++ [s])) in *.
    unfold last_n in *.
    destruct (length l1 - 365)%nat as [|[|k]] eqn:Ek.
    + rewrite drop_0 in Hout. contradiction.
    + destruct l1 as [|x rest]; [inversion Hs1in|].
      simpl in *. rewrite drop_0 in *.
      apply elem_of_cons in Hs1in as [->|Hin]; [|contradiction].
      assert (E : sorted_by sn_date (rest ++ [x]) = x :: rest).
      { symmetry. apply (sorted_unique_by_key sn_date); auto.
        - apply sorted_by_strongly_sorted.
        - rewrite sorted_by_perm. apply Permutation_cons_append. }
      rewrite E. simpl. rewrite Ek. reflexivity.
    + lia.
Qed.

(** C6: every history the recorder can produce has at most one snapshot
    per date, is ordered by date and holds at most 365 snapshots (order
    and bound hold after a call on any stored list); the same call made
    twice leaves the history of the first; after a call the only snapshot
    dated today is the one just computed, and it ends the history when no
    stored date is later than today; recording a new date on a full
    history drops the snapshot with the smallest date. *)
Theorem snapshot_history_invariant :
  (∀ calls,
     NoDup (sn_date <$> record_all calls)
     ∧ StronglySorted (key_le sn_date) (record_all calls)
     ∧ (length (record_all calls) ≤ 365)%nat)
  ∧ (∀ c snapshots,
       StronglySorted (key_le sn_date) (record_call snapshots c)
       ∧ (length (record_call snapshots c) ≤ 365)%nat)
  ∧ (∀ calls c,
       record_call (record_call (record_all calls) c) c =
       record_call (record_all calls) c)
  ∧ (∀ calls c s,
       s ∈ record_call (record_all calls) c → sn_date s = c_today c →
       s = snapshot_of c)
  ∧ (∀ calls c,
       Forall (fun x => String.le (sn_date x) (c_today c)) (record_all calls) →
       last (record_call (record_all calls) c) = Some (snapshot_of c))
  ∧ (∀ calls c,
       length (record_all calls) = 365%nat →
       c_today c ∉ (sn_date <$> record_all calls) →
       ∃ oldest,
         sorted_by sn_date (record_all calls ++ [snapshot_of c]) =
           oldest :: record_call (record_all calls) c
         ∧ Forall (key_le sn_date oldest) (record_call (record_all calls) c)
         ∧ length (record_call (record_all calls) c) = 365%nat).
Proof.
  split; [|split; [|split; [|split; [|split]]]].
  - intros calls. apply record_all_ok.
  - intros c snapshots. rewrite record_call_upsert. apply upsert_sorted_bounded.
  - intros calls c. rewrite !record_call_upsert.
    apply upsert_idem, record_all_ok.
  - intros calls c s Hin Hdate. rewrite record_call_upsert in Hin.
    apply upsert_elem in Hin as [Hs|Hw]; [exact Hs|].
    destruct (record_all_ok calls) as (Hnd & _).
    destruct (without_today_spec (sn_date (snapshot_of c)) _ Hnd) as (_ & Hd & _).
    exfalso. apply Hd. apply list_elem_of_fmap. exists s. split; [|exact Hw].
    unfold snapshot_of. rewrite make_snapshot_date. symmetry. exact Hdate.
  - intros calls c Hle. rewrite record_call_upsert.
    apply upsert_latest; [apply record_all_ok|].
    unfold key_le, snapshot_of. rewrite make_snapshot_date. exact Hle.
  - intros calls c Hlen Hd. rewrite record_call_upsert.
    apply upsert_full; [exact Hlen|].
    unfold snapshot_of. rewrite make_snapshot_date. exact Hd.
Qed.

Lemma snapshot_history_invariant_witness :
  (sn_total_value <$> record_call (record_all same_day_calls) same_day_again)
    = [0 + (0 + 10 * 1); 0 + (0 + 12 * 1)]
  ∧ (∀ s, s ∈ record_call (record_all same_day_calls) same_day_again →
          sn_date s = c_today same_day_again → s = snapshot_of same_day_again)
  ∧ last (record_call (record_all same_day_calls) same_day_again) =
    Some (snapshot_of same_day_again)
  ∧ length (record_call (record_all year_of_calls) (call_on 365)) = 365%nat.
Proof.
  destruct snapshot_history_invariant as (_ & _ & _ & Hone & Hlast & Hcap).
  split; [|split; [|split]].
  - vm_compute. reflexivity.
  - intros s Hin Hdate. apply (Hone same_day_calls same_day_again s Hin Hdate).
  - apply Hlast. apply (bool_decide_unpack _). vm_compute. exact I.
  - destruct (Hcap year_of_calls (call_on 365)) as (oldest & _ & _ & Hlen).
    + vm_compute. reflexivity.
    + apply (bool_decide_unpack _). vm_compute. exact I.
    + exact Hlen.
Defined.

(** ** Rebalancing *)

Lemma suggest_ticker hd targets threshold total tk sg :
  suggest hd targets threshold total tk = Some sg → sg_ticker sg = tk.
Proof.
  unfold suggest. destruct (Qltb threshold _); [|discriminate].
  destruct (Qltb 0 _); intros [= <-]; reflexivity.
Qed.

Lemma suggest_some hd targets threshold total tk :
  is_Some (suggest hd targets threshold total tk) ↔
  threshold < Qabs (alloc_diff hd targets total tk).
Proof.
  unfold suggest. destruct (Qltb threshold _) eqn:E.
  - apply Qltb_lt in E. split; [intros _; exact E | intros _; eauto].
  - apply Qltb_ge in E. split; [intros [? [=]] | intros H; lra].
Qed.

Lemma suggest_action hd targets threshold total tk sg :
  suggest hd targets threshold total tk = Some sg →
  (0 < alloc_diff hd targets total tk →
     sg_action sg = SELL
     ∧ sg_amount sg = alloc_diff hd targets total tk / 100 * total)
  ∧ (alloc_diff hd targets total tk <= 0 →
       sg_action sg = BUY
       ∧ sg_amount sg == Qabs (alloc_diff hd targets total tk) / 100 * total).
Proof.
  unfold suggest. destruct (Qltb threshold _); [|discriminate].
  destruct (Qltb 0 _) eqn:E; intros <-%(inj Some); cbn [sg_action sg_amount].
  - apply Qltb_lt in E. split; [auto | intros H; lra].
  - apply Qltb_ge in E. split; [intros H; lra|]. intros _.
    split; [reflexivity|]. unfold Qdiv. rewrite Qabs_Qmult. reflexivity.
Qed.





(** ** The value series *)







Lemma add_shares_keys tk s all :
  NoDup all.*1 → NoDup (add_shares tk s all).*1
  ∧ ∀ k, k ∈ (add_shares tk s all).*1 ↔ k = tk ∨ k ∈ all.*1.
Proof.
  induction all as [|[k0 v0] rest IH]; simpl; intros Hnd.
  - split; [repeat constructor; apply not_elem_of_nil|].
    intros k. rewrite list_elem_of_singleton. split; [auto|].
    intros [H|H]; [exact H | inversion H].
  - apply NoDup_cons in Hnd as [Hk Hrest].
    destruct (String.eqb k0 tk) eqn:E; simpl.
    + apply String.eqb_eq in E. subst k0.
      split; [apply NoDup_cons; auto|]. intros k. rewrite elem_of_cons. tauto.
    + destruct (IH Hrest) as [IH1 IH2]. apply String.eqb_neq in E. split.
      * apply NoDup_cons. split; [|exact IH1].
        rewrite IH2. intros [H|H]; [congruence | exact (Hk H)].
      * intros k. rewrite !elem_of_cons, IH2. tauto.
Qed.

Lemma collect_holdings_keys portfolio : NoDup (collect_holdings portfolio).*1.
Proof.
  unfold collect_holdings.
  assert (G : ∀ (hs : list holding) all, NoDup all.*1 →
              NoDup (fold_left (fun all h => add_shares (h_ticker h) (h_shares h) all)
                       hs all).*1).
  { induction hs as [|h hs IH]; intros all Hall; simpl; [exact Hall|].
    apply IH. apply add_shares_keys. exact Hall. }
  assert (G2 : ∀ all, NoDup all.*1 →
              NoDup (fold_left
                       (fun all a =>
                          fold_left (fun all h => add_shares (h_ticker h) (h_shares h) all)
                            (a_holdings a) all) portfolio all).*1).
  { induction portfolio as [|a pf IH]; intros all Hall; simpl; [exact Hall|].
    apply IH. apply G. exact Hall. }
  apply G2. constructor.
Qed.




(** * Further properties of the ledger *)

(** ** What a sync leaves alone *)

Lemma first_holding_split tk hs :
  no_holding tk hs
  ∨ ∃ pre h post, hs = pre ++ h :: post ∧ no_holding tk pre ∧ h_ticker h = tk.
Proof.
  induction hs as [|x l IH].
  - left. constructor.
  - destruct (decide (h_ticker x = tk)) as [Hx|Hx].
    + right. exists [], x, l.
      split; [reflexivity|]. split; [constructor | exact Hx].
    + destruct IH as [IH|(pre & h & post & -> & Hpre & Hh)].
      * left. constructor; assumption.
      * right. exists (x :: pre), h, post.
        split; [reflexivity|]. split; [constructor; assumption | exact Hh].
Qed.

Lemma find_holding_app_other tk l1 l2 :
  no_holding tk l2 → find_holding tk (l1 ++ l2) = find_holding tk l1.
Proof.
  intros H2. induction l1 as [|x l IH]; simpl.
  - induction H2 as [|y l2 Hy _ IH2]; simpl; [reflexivity|].
    rewrite (eqb_ne _ _ Hy). exact IH2.
  - destruct (String.eqb (h_ticker x) tk); [reflexivity | exact IH].
Qed.

Lemma find_holding_skip tk pre l :
  no_holding tk pre → find_holding tk (pre ++ l) = find_holding tk l.
Proof.
  induction 1 as [|x pre Hx _ IH]; simpl; [reflexivity|].
  rewrite (eqb_ne _ _ Hx). exact IH.
Qed.

Lemma update_holding_some_ticker act s p h :
  match update_holding act s p h with
  | Some h' => h_ticker h' = h_ticker h
  | None => True
  end.
Proof.
  destruct (update_holding act s p h) as [h'|] eqn:E; [|exact I].
  apply (update_holding_ticker _ _ _ _ _ E).
Qed.

Lemma find_holding_sync_other act tk tk' s p hs :
  tk' ≠ tk →
  find_holding tk' (sync_holdings act tk s p hs) = find_holding tk' hs.
Proof.
  intros Hne. unfold sync_holdings.
  assert (Hnew : no_holding tk' [Holding tk s p])
    by (repeat constructor; simpl; congruence).
  destruct (first_holding_split tk hs) as [Hno|(pre & h & post & -> & Hpre & Hh)].
  - rewrite (sync_existing_absent _ _ _ _ _ Hno).
    destruct act; [apply find_holding_app_other; exact Hnew | reflexivity].
  - rewrite (sync_existing_present _ _ _ _ _ _ _ Hpre Hh).
    assert (E : find_holding tk'
                  (pre ++ match update_holding act s p h with
                          | Some h' => h' :: post
                          | None => post
                          end) = find_holding tk' (pre ++ h :: post)).
    { clear Hpre. induction pre as [|x pre IH]; simpl.
      - pose proof (update_holding_some_ticker act s p h) as Ht.
        assert (Hh' : String.eqb (h_ticker h) tk' = false)
          by (apply eqb_ne; congruence).
        rewrite Hh'. destruct (update_holding act s p h) as [h'|]; [|reflexivity].
        simpl. rewrite Ht, Hh'. reflexivity.
      - destruct (String.eqb (h_ticker x) tk'); [reflexivity | exact IH]. }
    destruct act; exact E.
Qed.

(** X1: a trade changes nothing but the position in its ticker in the
    accounts it is synced to: every account keeps its id and name, the
    holdings found under any other ticker are the same as before, and an
    account with another id is not touched at all. *)
Theorem apply_trade_frame (t : trade) (accs : list account) :
  Forall2
    (fun a a' =>
       a_id a' = a_id a ∧ a_name a' = a_name a
       ∧ (a_id a ≠ t_account_id t → a' = a)
       ∧ ∀ tk', tk' ≠ t_ticker t →
           find_holding tk' (a_holdings a') = find_holding tk' (a_holdings a))
    accs (apply_trade t accs).
Proof.
  unfold apply_trade. induction accs as [|a accs IH]; simpl; [constructor|].
  destruct (String.eqb (a_id a) (t_account_id t)) eqn:E.
  - apply String.eqb_eq in E. constructor.
    + simpl. split; [reflexivity|]. split; [reflexivity|].
      split; [congruence|].
      intros tk' Hne. apply find_holding_sync_other. exact Hne.
    + clear. induction accs; constructor; auto.
  - constructor; [auto | exact IH].
Qed.

Lemma apply_trade_frame_witness :
  Forall2
    (fun a a' =>
       a_id a' = a_id a ∧ a_name a' = a_name a
       ∧ (a_id a ≠ "a1" → a' = a)
       ∧ ∀ tk', tk' ≠ "X" →
           find_holding tk' (a_holdings a') = find_holding tk' (a_holdings a))
    two_accounts (apply_trade second_buy two_accounts).
Proof. apply (apply_trade_frame second_buy two_accounts). Defined.

(** ** Invariants kept by a sync *)

Lemma sync_holdings_cases act tk s p hs :
  (no_holding tk hs
   ∧ sync_holdings act tk s p hs =
     match act with BUY => hs ++ [Holding tk s p] | SELL => hs end)
  ∨ ∃ pre h post,
      hs = pre ++ h :: post ∧ no_holding tk pre ∧ h_ticker h = tk
      ∧ sync_holdings act tk s p hs =
        pre ++ match update_holding act s p h with
               | Some h' => h' :: post
               | None => post
               end.
Proof.
  unfold sync_holdings.
  destruct (first_holding_split tk hs) as [Hno|(pre & h & post & -> & Hpre & Hh)].
  - left. split; [exact Hno|]. rewrite (sync_existing_absent _ _ _ _ _ Hno).
    destruct act; reflexivity.
  - right. exists pre, h, post.
    rewrite (sync_existing_present _ _ _ _ _ _ _ Hpre Hh).
    repeat (split; [first [reflexivity | assumption]|]). destruct act; reflexivity.
Qed.

Lemma no_holding_tickers tk hs : no_holding tk hs ↔ tk ∉ (h_ticker <$> hs).
Proof.
  unfold no_holding. rewrite Forall_forall. split.
  - intros H Hin. apply list_elem_of_fmap in Hin as (x & -> & Hx).
    exact (H x Hx eq_refl).
  - intros H x Hx E. apply H. rewrite <- E. apply list_elem_of_fmap. eauto.
Qed.

(** X2: a sync keeps the tickers of an account distinct. *)
Theorem sync_holdings_unique_tickers act tk s p hs :
  unique_tickers hs → unique_tickers (sync_holdings act tk s p hs).
Proof.
  unfold unique_tickers. intros Hnd.
  destruct (sync_holdings_cases act tk s p hs)
    as [[Hno ->]|(pre & h & post & -> & Hpre & Hh & ->)].
  - destruct act; [|exact Hnd]. rewrite fmap_app. simpl.
    apply NoDup_app. split; [exact Hnd|]. split; [|apply NoDup_singleton].
    intros x Hx Hs. apply list_elem_of_singleton in Hs. subst x.
    apply no_holding_tickers in Hno. exact (Hno Hx).
  - rewrite fmap_app in *. simpl in Hnd.
    apply NoDup_app in Hnd as (Hp & Hdisj & Hrest).
    apply NoDup_cons in Hrest as [Hh_post Hpost].
    pose proof (update_holding_some_ticker act s p h) as Ht.
    destruct (update_holding act s p h) as [h'|].
    + simpl. rewrite Ht. apply NoDup_app. split; [exact Hp|].
      split; [exact Hdisj|]. apply NoDup_cons. auto.
    + apply NoDup_app. split; [exact Hp|]. split; [|exact Hpost].
      intros x Hx Hin. apply (Hdisj x Hx). right. exact Hin.
Qed.

Lemma sync_holdings_unique_tickers_witness :
  unique_tickers (sync_holdings BUY "Y" 1 60 [Holding "X" 10 100; Holding "Y" 4 50]).
Proof.
  apply sync_holdings_unique_tickers.
  apply (bool_decide_unpack _). vm_compute. exact I.
Defined.

Lemma sync_keeps_positive act tk s p hs :
  0 < s → positive_holdings hs →
  positive_holdings (sync_holdings act tk s p hs).
Proof.
  unfold positive_holdings. intros Hs Hpos.
  destruct (sync_holdings_cases act tk s p hs)
    as [[Hno ->]|(pre & h & post & -> & Hpre & Hh & ->)].
  - destruct act; [|exact Hpos]. apply Forall_app. split; [exact Hpos|].
    repeat constructor. exact Hs.
  - apply Forall_app in Hpos as [Hp Hrest].
    apply Forall_cons in Hrest as [Hhpos Hpost].
    apply Forall_app. split; [exact Hp|].
    destruct act; simpl.
    + constructor; [simpl; lra | exact Hpost].
    + destruct (Qle_bool (h_shares h - s) 0) eqn:E; [exact Hpost|].
      apply Qle_bool_false in E. constructor; [exact E | exact Hpost].
Qed.

(** X3: with positive trade shares, holdings with positive shares stay
    so: a position that reaches zero or less is gone, never stored. *)
Theorem sync_holdings_positive act tk s p hs :
  0 < s → positive_holdings hs →
  positive_holdings (sync_holdings act tk s p hs).
Proof. apply sync_keeps_positive. Qed.

Lemma sync_holdings_positive_witness :
  positive_holdings (sync_holdings SELL "X" 10 120 [Holding "X" 10 100; Holding "Y" 4 50]).
Proof.
  apply sync_holdings_positive; [reflexivity|].
  repeat constructor.
Defined.

Lemma find_holding_none tk hs : no_holding tk hs → find_holding tk hs = None.
Proof.
  induction 1 as [|x l Hx _ IH]; simpl; [reflexivity|].
  rewrite (eqb_ne _ _ Hx). exact IH.
Qed.

(** X4: a BUY into a position moves its avg_cost towards the trade price
    and never past it: the new avg_cost lies between the old one and the
    price. *)
Theorem buy_avg_cost_between tk s p hs h :
  find_holding tk hs = Some h → 0 < h_shares h → 0 < s →
  ∃ h', find_holding tk (sync_holdings BUY tk s p hs) = Some h'
        ∧ h_shares h' = h_shares h + s
        ∧ (h_avg_cost h <= p → h_avg_cost h <= h_avg_cost h' ∧ h_avg_cost h' <= p)
        ∧ (p <= h_avg_cost h → p <= h_avg_cost h' ∧ h_avg_cost h' <= h_avg_cost h).
Proof.
  intros Hf Hh Hs.
  destruct (sync_holdings_cases BUY tk s p hs)
    as [[Hno _]|(pre & h0 & post & -> & Hpre & Hh0 & ->)].
  - exfalso. rewrite (find_holding_none _ _ Hno) in Hf. discriminate.
  - rewrite (find_holding_skip _ _ _ Hpre) in Hf. simpl in Hf.
    rewrite Hh0, String.eqb_refl in Hf. injection Hf as ->.
    rewrite (find_holding_skip _ _ _ Hpre). simpl.
    assert (Hn : 0 < h_shares h + s) by lra.
    rewrite (proj2 (Qltb_lt _ _) Hn), Hh0, String.eqb_refl.
    eexists. split; [reflexivity|]. simpl. split; [reflexivity|].
    split; intros Hle; split.
    + apply Qle_shift_div_l; [exact Hn|]. nra.
    + apply Qle_shift_div_r; [exact Hn|]. nra.
    + apply Qle_shift_div_l; [exact Hn|]. nra.
    + apply Qle_shift_div_r; [exact Hn|]. nra.
Qed.

Lemma buy_avg_cost_between_witness :
  ∃ h', find_holding "X" (sync_holdings BUY "X" 10 200 [Holding "X" 10 100]) = Some h'
        ∧ 100 <= h_avg_cost h' ∧ h_avg_cost h' <= 200.
Proof.
  destruct (buy_avg_cost_between "X" 10 200 [Holding "X" 10 100] (Holding "X" 10 100))
    as (h' & Hf & _ & Hup & _).
  - reflexivity.
  - reflexivity.
  - reflexivity.
  - exists h'. split; [exact Hf|]. apply Hup. discriminate.
Defined.

(** ** The log and the holdings can part *)

Lemma sync_portfolio_unchanged acc_id tk s p accs :
  (∀ a, a ∈ accs → a_id a = acc_id → no_holding tk (a_holdings a)) →
  sync_portfolio acc_id SELL tk s p accs = accs.
Proof.
  induction accs as [|a accs IH]; intros H; simpl; [reflexivity|].
  destruct (String.eqb (a_id a) acc_id) eqn:E.
  - apply String.eqb_eq in E.
    pose proof (H a (list_elem_of_here _ _) E) as Hno.
    unfold sync_holdings. rewrite (sync_existing_absent _ _ _ _ _ Hno).
    destruct a; reflexivity.
  - rewrite IH; [reflexivity|]. intros b Hb. apply H. right. exact Hb.
Qed.

Lemma sync_portfolio_no_account acc_id act tk s p accs :
  Forall (fun a => a_id a ≠ acc_id) accs →
  sync_portfolio acc_id act tk s p accs = accs.
Proof.
  induction 1 as [|a accs Ha _ IH]; simpl; [reflexivity|].
  rewrite (eqb_ne _ _ Ha), IH. reflexivity.
Qed.

(** X5: a filled-in trade form is always appended to the log, but the
    holdings stay as they were when no account has the chosen account id,
    or when it is a SELL of a ticker the account does not hold: the log
    then records a trade the holdings never saw.  A form with an empty
    field, or with zero shares or a zero price, changes nothing. *)
Theorem trade_logged_holdings_unchanged (upper_strip : string → string)
    (id account_id trade_date : string) (act : action) (ticker : string)
    (shares price : Q) (fees : option Q) (notes : string) (st : ledger) :
  let t := Trade id trade_date account_id (upper_strip ticker) act shares price
             (if truthy_opt fees then default 0 fees else 0) notes in
  (truthy_str account_id && truthy_str trade_date && truthy_str ticker = true →
   ¬ shares == 0 → ¬ price == 0 →
   Forall (fun a => a_id a ≠ account_id) (accounts st)
   ∨ (act = SELL
      ∧ ∀ a, a ∈ accounts st → a_id a = account_id →
          no_holding (upper_strip ticker) (a_holdings a)) →
   add_trade_form upper_strip id account_id trade_date (Some act) ticker
     (Some shares) (Some price) fees notes st =
   Ledger (trades st ++ [t]) (accounts st))
  ∧ (truthy_str account_id && truthy_str trade_date && truthy_str ticker = false
     ∨ shares == 0 ∨ price == 0 →
     add_trade_form upper_strip id account_id trade_date (Some act) ticker
       (Some shares) (Some price) fees notes st = st).
Proof.
  intros t. unfold add_trade_form, truthy_num. split.
  - intros Hstr Hs Hp H.
    assert (Es : Qeq_bool shares 0 = false).
    { destruct (Qeq_bool shares 0) eqn:E; [|reflexivity].
      apply Qeq_bool_iff in E. contradiction. }
    assert (Ep : Qeq_bool price 0 = false).
    { destruct (Qeq_bool price 0) eqn:E; [|reflexivity].
      apply Qeq_bool_iff in E. contradiction. }
    rewrite Hstr, Es, Ep. cbn [negb andb]. fold t. f_equal.
    unfold apply_trade. cbn [t_account_id t_action t_ticker t_shares t_price t].
    destruct H as [H|[Ha H]].
    + apply sync_portfolio_no_account. exact H.
    + rewrite Ha. apply sync_portfolio_unchanged. exact H.
  - intros [Hstr|[Hs|Hp]].
    + rewrite Hstr. reflexivity.
    + apply Qeq_bool_iff in Hs. rewrite Hs.
      rewrite andb_false_r. reflexivity.
    + apply Qeq_bool_iff in Hp. rewrite Hp, andb_false_r. reflexivity.
Qed.

Lemma trade_logged_holdings_unchanged_witness :
  add_trade_form (fun s => s) "t9" "a2" "2024-02-01" (Some SELL) "Y"
    (Some 2) (Some 55) None "" (Ledger [] two_accounts) =
  Ledger ([] ++ [sell_unheld]) two_accounts.
Proof.
  apply (proj1 (trade_logged_holdings_unchanged (fun s => s) "t9" "a2"
                  "2024-02-01" SELL "Y" 2 55 None "" (Ledger [] two_accounts))).
  - reflexivity.
  - discriminate.
  - discriminate.
  - right. split; [reflexivity|]. intros a Ha Hid.
    apply elem_of_cons in Ha as [->|Ha]; [discriminate|].
    apply list_elem_of_singleton in Ha. subst a.
    repeat constructor; discriminate.
Defined.

(** ** Deleting from the log *)

Lemma find_trade_none tid ts :
  find_trade tid ts = None ↔ Forall (fun t => t_id t ≠ tid) ts.
Proof.
  induction ts as [|t ts IH]; simpl.
  - split; [constructor | reflexivity].
  - destruct (String.eqb (t_id t) tid) eqn:E.
    + apply String.eqb_eq in E. split; [discriminate|].
      intros H. inversion H; subst. contradiction.
    + apply String.eqb_neq in E. rewrite IH. split.
      * intros H. constructor; assumption.
      * intros H. inversion H; assumption.
Qed.

Lemma keep_other_ids tid (t : trade) :
  Is_true (negb (String.eqb (t_id t) tid)) ↔ t_id t ≠ tid.
Proof.
  destruct (String.eqb (t_id t) tid) eqn:E; simpl.
  - apply String.eqb_eq in E. split; [contradiction | intros H; exact (H E)].
  - apply String.eqb_neq in E. split; [intros _; exact E | intros _; exact I].
Qed.

(** X6: deleting a trade id leaves in the log exactly the trades with
    another id, in their order; an id the log does not know changes
    neither the log nor the holdings. *)
Theorem delete_trade_log (tid : string) (st : ledger) :
  (∀ t, t ∈ trades (manage_trades (TradeDelete tid) st) ↔
        t ∈ trades st ∧ t_id t ≠ tid)
  ∧ trades (manage_trades (TradeDelete tid) st) `sublist_of` trades st
  ∧ (find_trade tid (trades st) = None →
       manage_trades (TradeDelete tid) st = st).
Proof.
  simpl. split; [|split].
  - intros t. rewrite list_elem_of_filter, keep_other_ids. tauto.
  - apply sublist_filter.
  - intros Hnone. unfold delete_trade. rewrite Hnone.
    apply find_trade_none in Hnone. destruct st as [ts accs]. simpl in *.
    f_equal. induction Hnone as [|t ts Ht _ IH]; [reflexivity|].
    rewrite filter_cons_True by (apply keep_other_ids; exact Ht).
    rewrite IH. reflexivity.
Qed.

Lemma delete_trade_log_witness :
  manage_trades (TradeDelete "nope") (Ledger fifo_example two_accounts) =
  Ledger fifo_example two_accounts.
Proof.
  apply (proj2 (proj2 (delete_trade_log "nope" (Ledger fifo_example two_accounts)))).
  reflexivity.
Defined.

(** * Further properties of the realized gains *)

(** X7: with positive trade shares, a ticker has a realized-gain record
    exactly when the log holds at least one SELL of it. *)
Theorem realized_only_with_sell (ts : list trade) (tk : string) :
  positive_shares ts →
  (is_Some (calculate_realized_gains ts !! tk) ↔ sells_of tk ts ≠ []).
Proof.
  intros Hpos. rewrite realized_gains_lookup.
  pose proof (sorted_by_perm t_date ts) as Hperm.
  assert (Hs : sells_of tk (sorted_by t_date ts) ≡ₚ sells_of tk ts)
    by (unfold sells_of; rewrite Hperm; reflexivity).
  pose proof (positive_shares_sorted _ Hpos) as Hpos'.
  set (bs := buys_of tk (sorted_by t_date ts)) in *.
  set (ss := sells_of tk (sorted_by t_date ts)) in *.
  assert (Hpb : positive_shares bs) by (apply positive_shares_filter; exact Hpos').
  assert (Hps : positive_shares ss) by (apply positive_shares_filter; exact Hpos').
  split.
  - intros [r Hr] Hnil. rewrite Hnil in Hs. apply Permutation_nil_r in Hs.
    rewrite Hs in Hr. discriminate.
  - intros Hne. destruct ss as [|t0 ss0] eqn:Ess.
    { apply Permutation_nil_l in Hs. congruence. }
    rewrite <- Ess in *.
    destruct (lots_of_trades bs Hpb) as (Hok & _ & _).
    destruct (sell_fold_spec ss (Totals (map lot_of bs) 0 0 0) Hps Hok)
      as (_ & _ & _ & _ & Hsold).
    simpl in Hsold. fold (sell_loop (map lot_of bs) (map sell_of ss)) in Hsold.
    assert (Hgt : 0 < shares_total ss).
    { rewrite Ess. simpl. inversion Hps as [|? ? Ht Hrest]; [congruence|].
      rewrite Ess in H. injection H as -> ->.
      pose proof (shares_total_nonneg _ Hrest). lra. }
    unfold realize. simpl.
    destruct (map sell_of ss) as [|s0 sl] eqn:Em.
    { rewrite Ess in Em. discriminate. }
    rewrite <- Em in *.
    assert (Hq : Qltb 0 (total_shares_sold (sell_loop (map lot_of bs) (map sell_of ss))) = true)
      by (apply Qltb_lt; rewrite Hsold; lra).
    rewrite Hq. eauto.
Qed.

Lemma realized_only_with_sell_witness :
  is_Some (calculate_realized_gains fifo_example !! "X")
  ∧ ¬ is_Some (calculate_realized_gains (take 2 fifo_example) !! "X").
Proof.
  split.
  - apply (realized_only_with_sell fifo_example "X"); [repeat constructor|].
    discriminate.
  - intros H. apply (realized_only_with_sell (take 2 fifo_example) "X") in H.
    + apply H. reflexivity.
    + repeat constructor.
Defined.

Lemma consume_prices buys : ∀ q c,
  l_price <$> (consume q c buys).1 = l_price <$> buys.
Proof.
  induction buys as [|b rest IH]; intros q c; simpl; [reflexivity|].
  destruct (Qle_bool q 0); [reflexivity|].
  destruct (Qle_bool (l_remaining b) 0).
  - specialize (IH q c). destruct (consume q c rest) as [rest' c1].
    cbn [fst] in *. rewrite fmap_cons. f_equal. exact IH.
  - specialize (IH (q - pymin (l_remaining b) q)
                   (c + pymin (l_remaining b) q * l_price b)).
    destruct (consume _ _ rest) as [rest' c1].
    cbn [fst] in *. rewrite fmap_cons. f_equal. exact IH.
Qed.

Lemma sell_fold_prices sells : ∀ st,
  l_price <$> tot_buys (fold_left sell_step sells st) = l_price <$> tot_buys st.
Proof.
  induction sells as [|s sells IH]; intros st; simpl; [reflexivity|].
  rewrite IH. unfold sell_step.
  pose proof (consume_prices (tot_buys st) (s_shares s) (total_cost st)) as E.
  destruct (consume _ _ _) as [buys' c']. exact E.
Qed.

Lemma rem_value_nonneg buys :
  lots_ok buys → Forall (fun p => 0 <= p) (l_price <$> buys) →
  0 <= rem_value buys.
Proof.
  induction 1 as [|b l Hb _ IH]; simpl; intros Hp; [lra|].
  apply Forall_cons in Hp as [Hpb Hpl]. specialize (IH Hpl). nra.
Qed.

Lemma rem_value_flat p buys :
  Forall (fun x => x == p) (l_price <$> buys) →
  rem_value buys == p * avail buys.
Proof.
  induction buys as [|b l IH]; simpl; intros Hp; [lra|].
  apply Forall_cons in Hp as [Hpb Hpl]. rewrite (IH Hpl), Hpb. ring.
Qed.

Lemma consume_cost_mono buys : ∀ q c,
  0 <= q → lots_ok buys → Forall (fun p => 0 <= p) (l_price <$> buys) →
  c <= (consume q c buys).2.
Proof.
  induction buys as [|b rest IH]; intros q c Hq Hok Hp; simpl; [lra|].
  inversion Hok as [|? ? Hb Hrest]; subst.
  simpl in Hp. apply Forall_cons in Hp as [Hpb Hpl].
  destruct (Qle_bool q 0) eqn:Eq; [simpl; lra|].
  apply Qle_bool_false in Eq.
  destruct (Qle_bool (l_remaining b) 0).
  - specialize (IH q c Hq Hrest Hpl).
    destruct (consume q c rest) as [rest' c1]. exact IH.
  - destruct (pymin_cases (l_remaining b) q) as [[Hlt Hm]|[Hle Hm]]; rewrite Hm.
    + assert (Hq' : 0 <= q - q) by lra.
      specialize (IH (q - q) (c + q * l_price b) Hq' Hrest Hpl).
      destruct (consume _ _ rest) as [rest' c1]. simpl in *. nra.
    + assert (Hq' : 0 <= q - l_remaining b) by lra.
      specialize (IH (q - l_remaining b) (c + l_remaining b * l_price b)
                    Hq' Hrest Hpl).
      destruct (consume _ _ rest) as [rest' c1]. simpl in *. nra.
Qed.

Lemma sell_fold_cost_mono ss : ∀ st,
  positive_shares ss → lots_ok (tot_buys st) →
  Forall (fun p => 0 <= p) (l_price <$> tot_buys st) →
  total_cost st <= total_cost (fold_left sell_step (map sell_of ss) st).
Proof.
  induction ss as [|t ss IH]; intros st Hpos Hok Hp; simpl; [lra|].
  inversion Hpos as [|? ? Ht Hpos']; subst.
  pose proof (consume_cost_mono (tot_buys st) (t_shares t) (total_cost st)
                (Qlt_le_weak _ _ Ht) Hok Hp) as Hc.
  pose proof (consume_prices (tot_buys st) (t_shares t) (total_cost st)) as Hpr.
  unfold sell_step at 2. simpl.
  destruct (consume (t_shares t) (total_cost st) (tot_buys st))
    as [buys' cost'] eqn:Ec.
  destruct (consume_spec _ _ _ _ _ (Qlt_le_weak _ _ Ht) Hok Ec) as (Hok' & _).
  simpl in *.
  apply (Qle_trans _ cost'); [exact Hc|].
  apply (IH (Totals buys' cost' _ _) Hpos' Hok'). simpl. rewrite Hpr. exact Hp.
Qed.

Lemma sell_fold_covered ss : ∀ st,
  positive_shares ss → lots_ok (tot_buys st) →
  shares_total ss <= avail (tot_buys st) →
  avail (tot_buys (fold_left sell_step (map sell_of ss) st)) ==
  avail (tot_buys st) - shares_total ss.
Proof.
  induction ss as [|t ss IH]; intros st Hpos Hok Hle; simpl; [lra|].
  inversion Hpos as [|? ? Ht Hpos']; subst.
  pose proof (shares_total_nonneg _ Hpos') as Hnn. simpl in Hle.
  unfold sell_step at 2. simpl.
  destruct (consume (t_shares t) (total_cost st) (tot_buys st))
    as [buys' cost'] eqn:Ec.
  destruct (consume_spec _ _ _ _ _ (Qlt_le_weak _ _ Ht) Hok Ec)
    as (Hok' & H1 & _).
  assert (E : avail buys' == avail (tot_buys st) - t_shares t) by (apply H1; lra).
  rewrite (IH (Totals buys' cost' _ _) Hpos' Hok'); simpl; [rewrite E; lra|].
  rewrite E. lra.
Qed.

Lemma trade_prices_of_lots bs :
  l_price <$> map lot_of bs = t_price <$> bs.
Proof.
  induction bs as [|t bs IH]; [reflexivity|].
  cbn [map]. rewrite !fmap_cons, IH. reflexivity.
Qed.

(** The facts about one ticker's record that the next theorems share. *)
Lemma realized_record ts tk r :
  positive_shares ts → calculate_realized_gains ts !! tk = Some r →
  let bs := buys_of tk (sorted_by t_date ts) in
  let ss := sells_of tk (sorted_by t_date ts) in
  let st := sell_loop (map lot_of bs) (map sell_of ss) in
  positive_shares bs ∧ positive_shares ss
  ∧ bs ≡ₚ buys_of tk ts ∧ ss ≡ₚ sells_of tk ts
  ∧ shares_sold r = total_shares_sold st ∧ cost_basis r = total_cost st
  ∧ proceeds r = total_proceeds st.
Proof.
  intros Hpos. rewrite realized_gains_lookup. intros Hr bs ss st.
  pose proof (sorted_by_perm t_date ts) as Hperm.
  pose proof (positive_shares_sorted _ Hpos) as Hpos'.
  split; [apply positive_shares_filter; exact Hpos'|].
  split; [apply positive_shares_filter; exact Hpos'|].
  split; [unfold bs, buys_of; rewrite Hperm; reflexivity|].
  split; [unfold ss, sells_of; rewrite Hperm; reflexivity|].
  unfold realize in Hr. simpl in Hr. fold bs ss in Hr.
  destruct (map sell_of ss); [discriminate|].
  fold st in Hr. destruct (Qltb 0 (total_shares_sold st)); [|discriminate].
  injection Hr as <-. auto.
Qed.

(** X8: with positive shares and prices that are not negative, the cost
    basis of a ticker is never negative and never more than what all its
    BUY lots cost; the shares sold and the proceeds are those of all its
    SELLs. *)
Theorem cost_basis_bounded (ts : list trade) (tk : string) (r : gain_record) :
  positive_shares ts → nonneg_prices ts →
  calculate_realized_gains ts !! tk = Some r →
  0 <= cost_basis r ∧ cost_basis r <= value_total (buys_of tk ts)
  ∧ shares_sold r == shares_total (sells_of tk ts)
  ∧ proceeds r == value_total (sells_of tk ts).
Proof.
  intros Hpos Hprice Hr.
  destruct (realized_record ts tk r Hpos Hr)
    as (Hpb & Hps & Hb & Hs & -> & -> & ->).
  set (bs := buys_of tk (sorted_by t_date ts)) in *.
  set (ss := sells_of tk (sorted_by t_date ts)) in *.
  destruct (lots_of_trades bs Hpb) as (Hok & Hav & Hval).
  assert (Hp : Forall (fun p => 0 <= p) (l_price <$> map lot_of bs)).
  { rewrite trade_prices_of_lots. apply Forall_fmap. unfold compose.
    apply Forall_forall. intros t Ht. rewrite Hb in Ht.
    apply list_elem_of_filter in Ht as [_ Ht].
    revert t Ht. apply Forall_forall. exact Hprice. }
  destruct (sell_fold_spec ss (Totals (map lot_of bs) 0 0 0) Hps Hok)
    as (Hok' & _ & Hcost & Hpro & Hsold).
  pose proof (sell_fold_cost_mono ss (Totals (map lot_of bs) 0 0 0) Hps Hok Hp)
    as Hmono.
  pose proof (sell_fold_prices (map sell_of ss) (Totals (map lot_of bs) 0 0 0))
    as Hpr.
  simpl in Hcost, Hpro, Hsold, Hmono, Hpr. rewrite Hval in Hcost.
  fold (sell_loop (map lot_of bs) (map sell_of ss)) in *.
  assert (Hrem : 0 <= rem_value (tot_buys (sell_loop (map lot_of bs) (map sell_of ss)))).
  { apply rem_value_nonneg; [exact Hok'|]. rewrite Hpr. exact Hp. }
  pose proof (value_total_perm _ _ Hb) as Evb.
  pose proof (value_total_perm _ _ Hs) as Evs.
  pose proof (shares_total_perm _ _ Hs) as Ess.
  repeat split; lra.
Qed.

Lemma cost_basis_bounded_witness :
  0 <= cost_basis (GainRecord 15 1550 1950 400)
  ∧ cost_basis (GainRecord 15 1550 1950 400) <= value_total (buys_of "X" fifo_example).
Proof.
  destruct (cost_basis_bounded fifo_example "X" (GainRecord 15 1550 1950 400))
    as (H1 & H2 & _).
  - repeat constructor.
  - repeat constructor; discriminate.
  - vm_compute. reflexivity.
  - split; assumption.
Defined.

(** X9: when all BUY lots of a ticker were bought at one price and its
    SELLs do not exceed them, the cost basis is that price times the
    shares sold. *)
Theorem flat_price_cost_basis (ts : list trade) (tk : string) (p : Q)
    (r : gain_record) :
  positive_shares ts →
  Forall (fun t => t_price t == p) (buys_of tk ts) →
  shares_total (sells_of tk ts) <= shares_total (buys_of tk ts) →
  calculate_realized_gains ts !! tk = Some r →
  cost_basis r == p * shares_sold r
  ∧ gain r == proceeds r - p * shares_sold r.
Proof.
  intros Hpos Hflat Hcov Hr.
  assert (Hgain : gain r = proceeds r - cost_basis r)
    by (rewrite realized_gains_lookup in Hr; exact (realize_gain _ _ Hr)).
  destruct (realized_record ts tk r Hpos Hr)
    as (Hpb & Hps & Hb & Hs & Hsold_r & Hcost_r & Hpro_r).
  set (bs := buys_of tk (sorted_by t_date ts)) in *.
  set (ss := sells_of tk (sorted_by t_date ts)) in *.
  destruct (lots_of_trades bs Hpb) as (Hok & Hav & Hval).
  assert (Hp : Forall (fun x => x == p) (l_price <$> map lot_of bs)).
  { rewrite trade_prices_of_lots. apply Forall_fmap. unfold compose.
    apply Forall_forall. intros t Ht. rewrite Hb in Ht.
    revert t Ht. apply Forall_forall. exact Hflat. }
  rewrite <- (shares_total_perm _ _ Hb), <- (shares_total_perm _ _ Hs) in Hcov.
  destruct (sell_fold_spec ss (Totals (map lot_of bs) 0 0 0) Hps Hok)
    as (Hok' & _ & Hcost & _ & Hsold).
  pose proof (sell_fold_covered ss (Totals (map lot_of bs) 0 0 0) Hps Hok) as Hcv.
  pose proof (sell_fold_prices (map sell_of ss) (Totals (map lot_of bs) 0 0 0))
    as Hpr.
  simpl in Hcost, Hsold, Hcv, Hpr. rewrite Hav in Hcv. specialize (Hcv Hcov).
  fold (sell_loop (map lot_of bs) (map sell_of ss)) in *.
  rewrite <- Hpr in Hp.
  pose proof (rem_value_flat p _ Hp) as Hrv.
  rewrite Hpr in Hp. pose proof (rem_value_flat p _ Hp) as Hrv0.
  rewrite Hav in Hrv0.
  assert (E : cost_basis r == p * shares_sold r).
  { rewrite Hcost_r, Hsold_r, Hsold.
    rewrite Hrv, Hcv, Hrv0 in Hcost. lra. }
  split; [exact E|]. rewrite Hgain, E. reflexivity.
Qed.

Lemma flat_price_cost_basis_witness :
  cost_basis (GainRecord 15 1500 1950 450) == 100 * shares_sold (GainRecord 15 1500 1950 450).
Proof.
  apply (flat_price_cost_basis flat_price_example "X" 100 (GainRecord 15 1500 1950 450)).
  - repeat constructor.
  - repeat constructor.
  - discriminate.
  - vm_compute. reflexivity.
Defined.

(** X10: the order of the log does not matter when no two trades share a
    date: any rearrangement of such a log gives the same records. *)
Theorem realized_gains_log_order (ts1 ts2 : list trade) :
  ts1 ≡ₚ ts2 → NoDup (t_date <$> ts1) →
  calculate_realized_gains ts1 = calculate_realized_gains ts2.
Proof.
  intros Hperm Hnd. unfold calculate_realized_gains, group_trades.
  f_equal. f_equal.
  apply (sorted_unique_by_key t_date).
  - rewrite sorted_by_perm. exact Hnd.
  - apply sorted_by_strongly_sorted.
  - apply sorted_by_strongly_sorted.
  - rewrite !sorted_by_perm. exact Hperm.
Qed.

Lemma realized_gains_log_order_witness :
  calculate_realized_gains fifo_example =
  calculate_realized_gains shuffled_fifo_example.
Proof.
  apply realized_gains_log_order.
  - unfold fifo_example, shuffled_fifo_example.
    etransitivity; [apply Permutation_cons_append|]. simpl.
    etransitivity; [apply Permutation_cons_append|]. reflexivity.
  - apply (bool_decide_unpack _). vm_compute. exact I.
Defined.

Section GainsOnlyRead.
Context (R : trade → trade → Prop).
Context (Rdate : ∀ x y, R x y → t_date x = t_date y).

Lemma insert_by_related x y l1 l2 :
  R x y → Forall2 R l1 l2 →
  Forall2 R (insert_by t_date x l1) (insert_by t_date y l2).
Proof.
  intros Hxy. induction 1 as [|a b l1 l2 Hab Hl IH]; simpl.
  - constructor; [exact Hxy | constructor].
  - rewrite (Rdate _ _ Hxy), (Rdate _ _ Hab).
    destruct (String.leb (t_date y) (t_date b)).
    + constructor; [exact Hxy|]. constructor; assumption.
    + constructor; [exact Hab | exact IH].
Qed.

Lemma sorted_by_related l1 l2 :
  Forall2 R l1 l2 → Forall2 R (sorted_by t_date l1) (sorted_by t_date l2).
Proof.
  induction 1; simpl; [constructor|]. apply insert_by_related; assumption.
Qed.
End GainsOnlyRead.

Lemma same_for_gains_date x y : same_for_gains x y → t_date x = t_date y.
Proof. intros H. apply H. Qed.

(** X11: the realized gains read only the date, ticker, action, shares
    and price of a trade: logs that agree on these give the same records,
    so the account a trade is booked in plays no part and lots bought in
    one account are consumed by the sells of another. *)
Theorem realized_gains_ignore_accounts (l1 l2 : list trade) :
  Forall2 same_for_gains l1 l2 →
  calculate_realized_gains l1 = calculate_realized_gains l2.
Proof.
  intros H. unfold calculate_realized_gains, group_trades. f_equal.
  apply (sorted_by_related same_for_gains same_for_gains_date) in H.
  generalize (∅ : gmap string (list lot * list sell_event)).
  induction H as [|a b l1' l2' Hab _ IH]; intros m; simpl; [reflexivity|].
  assert (E : group_step m a = group_step m b).
  { destruct Hab as (_ & Htk & Hact & Hs & Hp).
    unfold group_step, lot_of, sell_of. rewrite Htk, Hact, Hs, Hp. reflexivity. }
  rewrite E. apply IH.
Qed.

Lemma realized_gains_ignore_accounts_witness :
  calculate_realized_gains flat_price_example =
  calculate_realized_gains (map (in_account "a7") flat_price_example).
Proof.
  apply realized_gains_ignore_accounts.
  repeat constructor.
Defined.

(** * Further properties of the snapshot and the value series *)

Lemma value_holdings_fold price hs : ∀ acc,
  (fold_left (value_holding price) hs acc).1 == acc.1 + held_value price hs
  ∧ (fold_left (value_holding price) hs acc).2 == acc.2 + held_cost price hs.
Proof.
  induction hs as [|h hs IH]; intros acc; simpl; [split; lra|].
  destruct (IH (value_holding price acc h)) as [E1 E2]. rewrite E1, E2.
  unfold value_holding. destruct (price (h_ticker h)); simpl; split; lra.
Qed.

Lemma value_account_step price st a :
  ∃ v c, value_account price st a =
           (<[a_id a := AccountValue (a_name a) v c]> st.1.1,
            st.1.2 + v, st.2 + c)
         ∧ v == held_value price (a_holdings a)
         ∧ c == held_cost price (a_holdings a).
Proof.
  destruct st as [[data tv] tc]. unfold value_account.
  pose proof (value_holdings_fold price (a_holdings a) (0, 0)) as [Hv Hc].
  destruct (fold_left (value_holding price) (a_holdings a) (0, 0)) as [v c].
  exists v, c. simpl in *. split; [reflexivity|]. split; lra.
Qed.

Lemma value_accounts_fold price pf : ∀ st,
  (fold_left (value_account price) pf st).1.2 == st.1.2 + portfolio_value price pf
  ∧ (fold_left (value_account price) pf st).2 == st.2 + portfolio_cost price pf
  ∧ (∀ k, k ∉ (a_id <$> pf) →
       (fold_left (value_account price) pf st).1.1 !! k = st.1.1 !! k)
  ∧ (NoDup (a_id <$> pf) → ∀ a, a ∈ pf →
       ∃ av, (fold_left (value_account price) pf st).1.1 !! a_id a = Some av
             ∧ av_name av = a_name a
             ∧ av_value av == held_value price (a_holdings a)
             ∧ av_cost av == held_cost price (a_holdings a)).
Proof.
  induction pf as [|a pf IH]; intros st.
  - simpl. repeat split; try lra. intros _ a Ha. inversion Ha.
  - cbn [fold_left portfolio_value portfolio_cost].
    destruct (value_account_step price st a) as (v & c & E & Hv & Hc).
    rewrite E.
    destruct (IH (<[a_id a := AccountValue (a_name a) v c]> st.1.1,
                  st.1.2 + v, st.2 + c)) as (H1 & H2 & H3 & H4).
    cbn [fst snd] in H1, H2, H3.
    split; [rewrite H1; lra|]. split; [rewrite H2; lra|]. split.
    + intros k Hk. rewrite fmap_cons in Hk.
      apply not_elem_of_cons in Hk as [Hka Hk].
      rewrite (H3 k Hk). apply lookup_insert_ne. congruence.
    + intros Hnd b Hb. rewrite fmap_cons in Hnd.
      apply NoDup_cons in Hnd as [Ha Hnd].
      apply elem_of_cons in Hb as [->|Hb].
      * rewrite (H3 _ Ha), lookup_insert_eq. eexists. split; [reflexivity|].
        simpl. split; [reflexivity|]. split; assumption.
      * apply (H4 Hnd b Hb).
Qed.

(** X12: the totals of a snapshot are the sums over all accounts of the
    value and of the cost of the holdings that have a quote (a holding
    without a quote adds nothing to either); when the account ids are
    distinct, every account has its own entry with its name and its
    share of both totals. *)
Theorem snapshot_totals (today : string) (price_1d : string → option Q)
    (portfolio : list account) :
  let s := make_snapshot today price_1d portfolio in
  sn_date s = today
  ∧ sn_total_value s == portfolio_value price_1d portfolio
  ∧ sn_total_cost s == portfolio_cost price_1d portfolio
  ∧ (NoDup (a_id <$> portfolio) → ∀ a, a ∈ portfolio →
       ∃ av, sn_accounts s !! a_id a = Some av ∧ av_name av = a_name a
             ∧ av_value av == held_value price_1d (a_holdings a)
             ∧ av_cost av == held_cost price_1d (a_holdings a)).
Proof.
  intros s. split; [apply make_snapshot_date|].
  pose proof (value_accounts_fold price_1d portfolio (∅, 0, 0)) as H.
  unfold s, make_snapshot. cbn [fst snd] in H.
  destruct (fold_left (value_account price_1d) portfolio (∅, 0, 0))
    as [[data tv] tc].
  simpl in *. destruct H as (H1 & H2 & _ & H4).
  split; [lra|]. split; [lra | exact H4].
Qed.

Lemma snapshot_totals_witness :
  ∃ av, sn_accounts (make_snapshot "2024-03-01" quote_some two_accounts) !! "a1"
        = Some av
        ∧ av_value av == 7 * 10.
Proof.
  destruct (snapshot_totals "2024-03-01" quote_some two_accounts)
    as (_ & _ & _ & H).
  destruct (H ltac:(apply (bool_decide_unpack _); vm_compute; exact I)
              (Account "a1" "Main" [Holding "X" 10 100; Holding "Y" 4 50])
              (list_elem_of_here _ _))
    as (av & Hav & _ & Hval & _).
  exists av. split; [exact Hav|]. rewrite Hval. vm_compute. reflexivity.
Defined.

Lemma assoc_add_shares tk s all k :
  assoc k (add_shares tk s all) =
  if String.eqb tk k then Some (default 0 (assoc tk all) + s) else assoc k all.
Proof.
  induction all as [|[k0 v0] rest IH]; simpl.
  - destruct (String.eqb tk k); reflexivity.
  - destruct (String.eqb k0 tk) eqn:E0; simpl.
    + apply String.eqb_eq in E0. subst k0.
      destruct (String.eqb tk k); reflexivity.
    + rewrite IH. destruct (String.eqb tk k) eqn:Ek; [|reflexivity].
      apply String.eqb_eq in Ek. subst k. rewrite E0. reflexivity.
Qed.

Lemma assoc_elem (all : list (string * Q)) k v :
  NoDup all.*1 → ((k, v) ∈ all ↔ assoc k all = Some v).
Proof.
  induction all as [|[k0 v0] rest IH]; simpl; intros Hnd.
  - split; [intros H; inversion H | discriminate].
  - apply NoDup_cons in Hnd as [Hk0 Hnd]. rewrite elem_of_cons, (IH Hnd).
    destruct (String.eqb k0 k) eqn:E.
    + apply String.eqb_eq in E. subst k0. split.
      * intros [[= ->]|H]; [reflexivity|]. exfalso. apply Hk0.
        apply (IH Hnd) in H. apply list_elem_of_fmap. exists (k, v). auto.
      * intros [= ->]. left. reflexivity.
    + apply String.eqb_neq in E. split; [|auto].
      intros [[= -> _]|H]; [contradiction | exact H].
Qed.

Lemma collect_account_fold tk hs : ∀ all,
  default 0 (assoc tk
               (fold_left (fun all h => add_shares (h_ticker h) (h_shares h) all)
                  hs all))
  == default 0 (assoc tk all) + shares_held tk hs.
Proof.
  induction hs as [|h hs IH]; intros all; simpl; [lra|].
  rewrite IH, assoc_add_shares.
  destruct (String.eqb (h_ticker h) tk) eqn:E; simpl; [|reflexivity].
  apply String.eqb_eq in E. rewrite E. lra.
Qed.

Lemma collect_portfolio_fold tk pf : ∀ all,
  default 0 (assoc tk
               (fold_left
                  (fun all a =>
                     fold_left (fun all h => add_shares (h_ticker h) (h_shares h) all)
                       (a_holdings a) all) pf all))
  == default 0 (assoc tk all) + shares_held_all tk pf.
Proof.
  induction pf as [|a pf IH]; intros all; simpl; [lra|].
  rewrite IH, collect_account_fold. lra.
Qed.

Lemma add_shares_nonempty tk s all : add_shares tk s all ≠ [].
Proof.
  destruct all as [|[k v] rest]; simpl; [discriminate|].
  destruct (String.eqb k tk); discriminate.
Qed.

Lemma collect_nonempty_keeps hs : ∀ all,
  all ≠ [] →
  fold_left (fun all h => add_shares (h_ticker h) (h_shares h) all) hs all ≠ [].
Proof.
  induction hs as [|h hs IH]; intros all Hall; simpl; [exact Hall|].
  apply IH, add_shares_nonempty.
Qed.

Lemma collect_accounts_nonempty (pf : list account) : ∀ all,
  all ≠ [] →
  fold_left
    (fun all a =>
       fold_left (fun all h => add_shares (h_ticker h) (h_shares h) all)
         (a_holdings a) all) pf all ≠ [].
Proof.
  induction pf as [|a pf IH]; intros all Hall; simpl; [exact Hall|].
  apply IH, collect_nonempty_keeps, Hall.
Qed.

Lemma collect_holdings_empty pf :
  collect_holdings pf = [] ↔ Forall (fun a => a_holdings a = []) pf.
Proof.
  unfold collect_holdings. induction pf as [|a pf IH]; simpl.
  - split; [constructor | reflexivity].
  - destruct (a_holdings a) as [|h hs] eqn:Eh.
    + simpl. rewrite IH. split; [intros H; constructor; assumption|].
      intros H. inversion H; assumption.
    + split; [|intros H; inversion H; congruence].
      intros H. exfalso. revert H.
      apply collect_accounts_nonempty. cbn [fold_left].
      apply collect_nonempty_keeps, add_shares_nonempty.
Qed.

(** X13: the series is computed from one entry per ticker whose shares are
    the sum of the shares held in that ticker over all accounts, and a
    ticker has no entry exactly when that lookup finds nothing. *)
Theorem collect_holdings_sums (portfolio : list account) (tk : string) :
  NoDup (collect_holdings portfolio).*1
  ∧ (∀ v, (tk, v) ∈ collect_holdings portfolio →
          v == shares_held_all tk portfolio)
  ∧ (tk ∉ (collect_holdings portfolio).*1 →
       shares_held_all tk portfolio == 0).
Proof.
  pose proof (collect_holdings_keys portfolio) as Hnd.
  pose proof (collect_portfolio_fold tk portfolio []) as E.
  fold (collect_holdings portfolio) in E. simpl in E.
  split; [exact Hnd|]. split.
  - intros v Hv. apply (assoc_elem _ _ _ Hnd) in Hv. rewrite Hv in E.
    simpl in E. lra.
  - intros Hno.
    destruct (assoc tk (collect_holdings portfolio)) as [v|] eqn:Ea.
    + exfalso. apply Hno. apply (assoc_elem _ _ _ Hnd) in Ea.
      apply list_elem_of_fmap. exists (tk, v). auto.
    + simpl in E. lra.
Qed.

(** X14: the "No holdings to display." figure is drawn exactly when no
    account has a holding, whatever the download and the stored history
    are; no other input yields it. *)
Theorem no_holdings_figure (time_filter : string)
    (download : option (string → option (list sample)))
    (portfolio : list account) (snapshots : list snapshot) :
  create_portfolio_trend_graph time_filter download portfolio snapshots = NoHoldings
  ↔ Forall (fun a => a_holdings a = []) portfolio.
Proof.
  rewrite <- collect_holdings_empty. unfold create_portfolio_trend_graph.
  destruct (collect_holdings portfolio) as [|e all].
  - split; reflexivity.
  - split; [|discriminate].
    destruct download; [discriminate|]. destruct snapshots; discriminate.
Qed.

Lemma no_holdings_figure_witness :
  create_portfolio_trend_graph "1M" None
    [Account "a1" "Main" []; Account "a2" "IRA" []] [] = NoHoldings.
Proof.
  apply no_holdings_figure. repeat constructor.
Defined.

Lemma collect_holdings_sums_witness :
  ∃ v, ("X", v) ∈ collect_holdings two_accounts ∧ v == 13.
Proof.
  destruct (collect_holdings_sums two_accounts "X") as (_ & H & _).
  exists (default 0 (assoc "X" (collect_holdings two_accounts))).
  assert (Hin : ("X", default 0 (assoc "X" (collect_holdings two_accounts)))
                ∈ collect_holdings two_accounts)
    by (vm_compute; left).
  split; [exact Hin|]. rewrite (H _ Hin). reflexivity.
Defined.

(** ** The two fallbacks to the stored history *)

Lemma snapshot_values_fold h : ∀ (m : gmap string Q),
  NoDup (sn_date <$> h) →
  (∀ s, s ∈ h →
     fold_left (fun pv s => <[sn_date s := sn_total_value s]> pv) h m
       !! sn_date s = Some (sn_total_value s))
  ∧ (∀ d, d ∉ (sn_date <$> h) →
       fold_left (fun pv s => <[sn_date s := sn_total_value s]> pv) h m !! d
       = m !! d).
Proof.
  induction h as [|x h IH]; intros m Hnd.
  - split; [intros s Hs; inversion Hs | reflexivity].
  - rewrite fmap_cons in Hnd. apply NoDup_cons in Hnd as [Hx Hnd].
    cbn [fold_left].
    destruct (IH (<[sn_date x := sn_total_value x]> m) Hnd) as [H1 H2].
    split.
    + intros s [->|Hs]%elem_of_cons; [|exact (H1 s Hs)].
      rewrite (H2 _ Hx). apply lookup_insert_eq.
    + intros d Hd. rewrite fmap_cons in Hd.
      apply not_elem_of_cons in Hd as [Hdx Hd].
      rewrite (H2 d Hd). apply lookup_insert_ne. congruence.
Qed.

Lemma stored_series_is_series_of calls :
  series_of (snapshot_values (record_all calls)) =
  map (fun s => (sn_date s, sn_total_value s)) (record_all calls).
Proof.
  destruct (record_all_ok calls) as (Hnd & Hs & _).
  set (h := record_all calls) in *.
  destruct (snapshot_values_fold h ∅ Hnd) as [H1 H2].
  fold (snapshot_values h) in H1, H2.
  change (map (fun s => (sn_date s, sn_total_value s)) h)
    with ((fun s => (sn_date s, sn_total_value s)) <$> h).
  set (f := fun s : snapshot => (sn_date s, sn_total_value s)).
  assert (Hkeys : fst <$> (f <$> h) = sn_date <$> h).
  { rewrite <- list_fmap_compose. reflexivity. }
  symmetry. apply (sorted_unique_by_key fst).
  - rewrite Hkeys. exact Hnd.
  - apply (StronglySorted_fmap f (key_le sn_date)); [|exact Hs]. auto.
  - apply sorted_by_strongly_sorted.
  - unfold series_of. rewrite sorted_by_perm. apply NoDup_Permutation.
    + apply (NoDup_fmap_1 fst). rewrite Hkeys. exact Hnd.
    + apply NoDup_map_to_list.
    + intros [d v]. rewrite elem_of_map_to_list, list_elem_of_fmap. split.
      * intros (s & [= -> ->] & Hs'). apply H1. exact Hs'.
      * intros Hl. destruct (decide (d ∈ sn_date <$> h)) as [Hd|Hd].
        -- apply list_elem_of_fmap in Hd as (s & -> & Hin).
           exists s. split; [|exact Hin]. rewrite (H1 s Hin) in Hl.
           injection Hl as <-. reflexivity.
        -- rewrite (H2 d Hd), lookup_empty in Hl. discriminate.
Qed.

(** X15: for a portfolio with holdings and a history kept by the
    recorder, a download that yields no usable price and a download that
    fails plot the same series, the stored snapshots in date order; only
    with an empty history do they differ (an empty series against the "no
    history" note). *)
Theorem fallback_series_agree (time_filter : string)
    (hist_data : string → option (list sample)) (portfolio : list account)
    (calls : list call) :
  collect_holdings portfolio ≠ [] →
  price_values time_filter hist_data (collect_holdings portfolio) = ∅ →
  create_portfolio_trend_graph time_filter (Some hist_data) portfolio
    (record_all calls) =
  Series (map (fun s => (sn_date s, sn_total_value s)) (record_all calls))
  ∧ (record_all calls ≠ [] →
       create_portfolio_trend_graph time_filter None portfolio (record_all calls) =
       create_portfolio_trend_graph time_filter (Some hist_data) portfolio
         (record_all calls))
  ∧ (record_all calls = [] →
       create_portfolio_trend_graph time_filter None portfolio (record_all calls) =
       NoHistory).
Proof.
  intros Hne Hpv. unfold create_portfolio_trend_graph.
  destruct (collect_holdings portfolio) as [|e all] eqn:E; [contradiction|].
  rewrite Hpv. destruct (decide (∅ = ∅)) as [_|Hn]; [|contradiction].
  rewrite stored_series_is_series_of.
  split; [reflexivity|]. split.
  - intros Hh. destruct (record_all calls); [contradiction | reflexivity].
  - intros ->. reflexivity.
Qed.

Lemma price_values_no_history tf all : price_values tf no_history all = ∅.
Proof.
  unfold price_values. induction all as [|e all IH]; [reflexivity|]. exact IH.
Qed.

Lemma fallback_series_agree_witness :
  create_portfolio_trend_graph "1M" None two_accounts (record_all same_day_calls) =
  create_portfolio_trend_graph "1M" (Some no_history) two_accounts
    (record_all same_day_calls).
Proof.
  destruct (fallback_series_agree "1M" no_history two_accounts same_day_calls)
    as (_ & H & _).
  - discriminate.
  - apply price_values_no_history.
  - apply H. discriminate.
Defined.

(** ** The padded axis *)

Lemma min_from_spec l : ∀ x,
  min_from x l <= x ∧ Forall (fun y => min_from x l <= y) l
  ∧ (min_from x l = x ∨ min_from x l ∈ l).
Proof.
  induction l as [|y l IH]; intros x; simpl.
  - split; [lra|]. split; [constructor | left; reflexivity].
  - destruct (Qltb y x) eqn:E.
    + apply Qltb_lt in E. destruct (IH y) as (H1 & H2 & H3).
      split; [lra|]. split; [constructor; assumption|].
      right. destruct H3 as [->|H3]; [left | right; exact H3].
    + apply Qltb_ge in E. destruct (IH x) as (H1 & H2 & H3).
      split; [exact H1|]. split; [constructor; [lra | exact H2]|].
      destruct H3 as [H3|H3]; [left; exact H3 | right; right; exact H3].
Qed.

Lemma max_from_spec l : ∀ x,
  x <= max_from x l ∧ Forall (fun y => y <= max_from x l) l
  ∧ (max_from x l = x ∨ max_from x l ∈ l).
Proof.
  induction l as [|y l IH]; intros x; simpl.
  - split; [lra|]. split; [constructor | left; reflexivity].
  - destruct (Qltb x y) eqn:E.
    + apply Qltb_lt in E. destruct (IH y) as (H1 & H2 & H3).
      split; [lra|]. split; [constructor; assumption|].
      right. destruct H3 as [->|H3]; [left | right; exact H3].
    + apply Qltb_ge in E. destruct (IH x) as (H1 & H2 & H3).
      split; [exact H1|]. split; [constructor; [lra | exact H2]|].
      destruct H3 as [H3|H3]; [left; exact H3 | right; right; exact H3].
Qed.

Lemma pymax_spec a b : a <= pymax a b ∧ b <= pymax a b
                       ∧ (pymax a b = a ∨ pymax a b = b).
Proof.
  unfold pymax. destruct (Qltb a b) eqn:E.
  - apply Qltb_lt in E. repeat split; [lra | lra | right; reflexivity].
  - apply Qltb_ge in E. repeat split; [lra | lra | left; reflexivity].
Qed.

(** X16: for a series without negative values the axis starts at or above
    zero and holds every value; it has no height at all exactly when every
    value is zero. *)
Theorem axis_range_holds_values (values : list Q) :
  values ≠ [] → Forall (fun v => 0 <= v) values →
  0 <= (axis_range values).1
  ∧ Forall (fun v => (axis_range values).1 <= v ∧ v <= (axis_range values).2) values
  ∧ ((axis_range values).1 == (axis_range values).2 ↔
     Forall (fun v => v == 0) values).
Proof.
  intros Hne Hpos. destruct values as [|v rest]; [contradiction|].
  apply Forall_cons in Hpos as [Hv Hrest]. unfold axis_range.
  destruct (min_from_spec rest v) as (Hm1 & Hm2 & Hm3).
  destruct (max_from_spec rest v) as (HM1 & HM2 & HM3).
  set (mn := min_from v rest) in *. set (mx := max_from v rest) in *.
  assert (Hmn0 : 0 <= mn).
  { destruct Hm3 as [->|Hin]; [exact Hv|].
    revert Hin. generalize mn. apply Forall_forall. exact Hrest. }
  assert (Hle : mn <= mx) by lra.
  set (padding := if negb (Qeq_bool mx mn)
                  then (mx - mn) * (1 # 10) else mx * (5 # 100)).
  assert (Hpad : 0 <= padding ∧ (padding == 0 ↔ mx == 0)
                 ∧ (¬ mx == mn → 0 < padding)).
  { unfold padding. destruct (Qeq_bool mx mn) eqn:E; simpl.
    - apply Qeq_bool_iff in E. split; [lra|]. split; [split; lra|].
      intros H. contradiction.
    - apply Qeq_bool_neq in E. split; [lra|]. split; [|intros _; lra].
      split; [intros H; exfalso; apply E; lra|].
      intros H. exfalso. apply E. lra. }
  destruct Hpad as (Hp0 & Hpz & Hpp).
  destruct (pymax_spec 0 (mn - padding)) as (Hy0 & Hy1 & Hy2).
  cbn [fst snd].
  split; [exact Hy0|]. split.
  - assert (Hlo : pymax 0 (mn - padding) <= mn)
      by (destruct Hy2 as [->| ->]; lra).
    constructor; [lra|].
    apply Forall_forall. intros y Hy.
    pose proof (proj1 (Forall_forall _ _) Hm2 y Hy).
    pose proof (proj1 (Forall_forall _ _) HM2 y Hy). simpl in *. lra.
  - split.
    + intros Heq.
      assert (Hmx : mx == 0).
      { destruct (Qeq_dec mx mn) as [E|E].
        - destruct Hy2 as [Hy2|Hy2]; rewrite Hy2 in Heq; [lra|].
          apply Hpz. lra.
        - specialize (Hpp E). destruct Hy2 as [Hy2|Hy2]; rewrite Hy2 in Heq; lra. }
      constructor; [lra|]. apply Forall_forall. intros y Hy.
      pose proof (proj1 (Forall_forall _ _) HM2 y Hy).
      pose proof (proj1 (Forall_forall _ _) Hrest y Hy). simpl in *. lra.
    + intros Hall. apply Forall_cons in Hall as [Hv0 Hr0].
      assert (Hmx : mx == 0).
      { destruct HM3 as [->|Hin]; [exact Hv0|].
        revert Hin. generalize mx. apply Forall_forall. exact Hr0. }
      assert (Hpd : padding == 0) by (apply Hpz; exact Hmx).
      destruct Hy2 as [->| ->]; lra.
Qed.

Lemma axis_range_holds_values_witness :
  0 <= (axis_range [10; 30; 20]).1
  ∧ Forall (fun v => (axis_range [10; 30; 20]).1 <= v
                     ∧ v <= (axis_range [10; 30; 20]).2) [10; 30; 20].
Proof.
  destruct (axis_range_holds_values [10; 30; 20]) as (H1 & H2 & _).
  - discriminate.
  - repeat constructor; discriminate.
  - split; assumption.
Defined.

(** * Further properties of the analytics *)

Lemma sumQ_perm l1 l2 : l1 ≡ₚ l2 → sumQ l1 == sumQ l2.
Proof. induction 1; simpl; lra. Qed.

Lemma map_sum_insert_new {A} (f : string → A → Q) (m : gmap string A) k x :
  m !! k = None → map_sum f (<[k:=x]> m) == f k x + map_sum f m.
Proof.
  intros Hk. unfold map_sum.
  rewrite (sumQ_perm _ ((fun e => f e.1 e.2) <$> ((k, x) :: map_to_list m))).
  - reflexivity.
  - apply fmap_Permutation, map_to_list_insert. exact Hk.
Qed.

Lemma map_sum_delete {A} (f : string → A → Q) (m : gmap string A) k y :
  m !! k = Some y → map_sum f m == f k y + map_sum f (delete k m).
Proof.
  intros Hk. unfold map_sum.
  rewrite (sumQ_perm _ ((fun e => f e.1 e.2) <$> ((k, y) :: map_to_list (delete k m)))).
  - reflexivity.
  - apply fmap_Permutation. symmetry. apply map_to_list_delete. exact Hk.
Qed.

Lemma map_sum_insert_over {A} (f : string → A → Q) (m : gmap string A) k x y :
  m !! k = Some y → map_sum f (<[k:=x]> m) == f k x - f k y + map_sum f m.
Proof.
  intros Hk. rewrite <- insert_delete_eq.
  rewrite map_sum_insert_new by apply lookup_delete_eq.
  rewrite (map_sum_delete f m k y Hk). lra.
Qed.

Lemma map_sum_scale {A} (f g : string → A → Q) (m : gmap string A) c :
  (∀ k x, m !! k = Some x → g k x == c * f k x) →
  map_sum g m == c * map_sum f m.
Proof.
  unfold map_sum. intros H.
  assert (G : ∀ l : list (string * A),
            (∀ e, e ∈ l → g e.1 e.2 == c * f e.1 e.2) →
            sumQ ((fun e => g e.1 e.2) <$> l) == c * sumQ ((fun e => f e.1 e.2) <$> l)).
  { induction l as [|e l IH]; intros Hl; [simpl; lra|].
    rewrite !fmap_cons. cbn [sumQ].
    rewrite (Hl e (list_elem_of_here _ _)), IH; [ring|].
    intros e' He'. apply Hl. right. exact He'. }
  apply G. intros [k x] He. apply elem_of_map_to_list in He. apply H. exact He.
Qed.

Lemma gather_holding_total quote st h :
  (gather_holding quote st h).2 - map_sum (fun _ => hd_value) (gather_holding quote st h).1
  == st.2 - map_sum (fun _ => hd_value) st.1.
Proof.
  destruct st as [hd total]. unfold gather_holding.
  destruct (quote (h_ticker h)) as [data|]; [|reflexivity].
  cbn [fst snd]. destruct (hd !! h_ticker h) as [e|] eqn:E.
  - rewrite (map_sum_insert_over _ _ _ _ e E). simpl. lra.
  - rewrite (map_sum_insert_new _ _ _ _ E). simpl. lra.
Qed.

Lemma gather_holdings_total quote pf :
  (gather_holdings quote pf).2 ==
  map_sum (fun _ => hd_value) (gather_holdings quote pf).1.
Proof.
  unfold gather_holdings.
  assert (G1 : ∀ hs st,
    (fold_left (gather_holding quote) hs st).2
      - map_sum (fun _ => hd_value) (fold_left (gather_holding quote) hs st).1
    == st.2 - map_sum (fun _ => hd_value) st.1).
  { induction hs as [|h hs IH]; intros st; simpl; [reflexivity|].
    rewrite IH. apply gather_holding_total. }
  assert (G2 : ∀ st,
    (fold_left (fun st a => fold_left (gather_holding quote) (a_holdings a) st) pf st).2
      - map_sum (fun _ => hd_value)
          (fold_left (fun st a => fold_left (gather_holding quote) (a_holdings a) st) pf st).1
    == st.2 - map_sum (fun _ => hd_value) st.1).
  { induction pf as [|a pf IH]; intros st; simpl; [reflexivity|].
    rewrite IH. apply G1. }
  specialize (G2 (∅, 0)). simpl in G2. unfold map_sum at 2 in G2.
  rewrite map_to_list_empty in G2. simpl in G2. lra.
Qed.

(** X17: the total value the analytics work with is the sum of the values
    of the gathered tickers, so whenever it is not zero the actual
    percentages of the gathered tickers add up to 100. *)
Theorem actual_percentages_sum (get_stock_quick_data : string → option quick_data)
    (portfolio : list account) :
  let holdings_data := (gather_holdings get_stock_quick_data portfolio).1 in
  let total_value := (gather_holdings get_stock_quick_data portfolio).2 in
  total_value == map_sum (fun _ => hd_value) holdings_data
  ∧ (¬ total_value == 0 →
       map_sum (fun tk _ => actual_pct holdings_data total_value tk) holdings_data
       == 100).
Proof.
  intros hd total. pose proof (gather_holdings_total get_stock_quick_data portfolio) as E.
  fold hd total in E. split; [exact E|]. intros Hne.
  rewrite (map_sum_scale (fun _ => hd_value) _ hd (/ total * 100)).
  - rewrite <- E. field. exact Hne.
  - intros k x Hk. unfold actual_pct. rewrite Hk. simpl. field. exact Hne.
Qed.

Lemma actual_percentages_sum_witness :
  map_sum (fun tk _ => actual_pct (gather_holdings quick_7 two_accounts).1
                         (gather_holdings quick_7 two_accounts).2 tk)
    (gather_holdings quick_7 two_accounts).1 == 100.
Proof.
  apply (proj2 (actual_percentages_sum quick_7 two_accounts)).
  vm_compute. discriminate.
Defined.

(** X18: a suggestion is sized to bring the ticker to its target: selling
    the suggested amount from the ticker's value, or buying it on top,
    leaves exactly target_pct percent of the total value. *)
Theorem suggestion_reaches_target (holdings_data : gmap string holding_data)
    (target_allocs : gmap string Q) (threshold total_value : Q)
    (l : list suggestion) (sg : suggestion) :
  rebalance holdings_data target_allocs threshold total_value = Some l →
  sg ∈ l →
  (sg_action sg = SELL →
     held_value_of holdings_data (sg_ticker sg) - sg_amount sg ==
     target_pct target_allocs (sg_ticker sg) / 100 * total_value)
  ∧ (sg_action sg = BUY →
       held_value_of holdings_data (sg_ticker sg) + sg_amount sg ==
       target_pct target_allocs (sg_ticker sg) / 100 * total_value)
  ∧ (0 <= threshold → 0 < sg_amount sg).
Proof.
  unfold rebalance. intros Hr Hin.
  destruct (bool_decide (holdings_data ≠ ∅) && bool_decide (target_allocs ≠ ∅)
            && Qltb 0 total_value) eqn:Eg; [|discriminate].
  apply andb_true_iff in Eg as [_ Htot]. apply Qltb_lt in Htot.
  injection Hr as <-. apply list_elem_of_omap in Hin as (tk & _ & Hs).
  pose proof (suggest_ticker _ _ _ _ _ _ Hs) as Htk. rewrite Htk.
  pose proof (suggest_action _ _ _ _ _ _ Hs) as [Hsell Hbuy].
  assert (Hth : threshold < Qabs (alloc_diff holdings_data target_allocs total_value tk))
    by (apply suggest_some; eauto).
  assert (Hdiff : alloc_diff holdings_data target_allocs total_value tk ==
                  held_value_of holdings_data tk / total_value * 100
                  - target_pct target_allocs tk) by reflexivity.
  assert (Hne : ¬ total_value == 0) by lra.
  destruct (Qlt_le_dec 0 (alloc_diff holdings_data target_allocs total_value tk))
    as [Hpos|Hneg].
  - destruct (Hsell Hpos) as [Ha Ham]. rewrite Ha, Ham.
    split; [intros _|split; [discriminate|]].
    + rewrite Hdiff. field. exact Hne.
    + intros _. apply Qmult_lt_0_compat; [|exact Htot].
      apply Qlt_shift_div_l; lra.
  - destruct (Hbuy Hneg) as [Ha Ham]. rewrite Ha, Ham.
    assert (Habs : Qabs (alloc_diff holdings_data target_allocs total_value tk)
                   == - alloc_diff holdings_data target_allocs total_value tk)
      by (apply Qabs_neg; exact Hneg).
    split; [discriminate|]. split.
    + intros _. rewrite Habs, Hdiff. field. exact Hne.
    + intros Hth0. apply Qmult_lt_0_compat; [|exact Htot].
      apply Qlt_shift_div_l; lra.
Qed.

Lemma suggestion_reaches_target_witness :
  ∃ l, rebalance (holdings_with_x 26) target_x_20 5 100 = Some l
       ∧ Forall (fun sg => 0 < sg_amount sg) l.
Proof.
  destruct (rebalance (holdings_with_x 26) target_x_20 5 100) as [l|] eqn:E;
    [|vm_compute in E; discriminate].
  exists l. split; [reflexivity|]. apply Forall_forall. intros sg Hin.
  apply (suggestion_reaches_target _ _ _ _ l sg E Hin). discriminate.
Defined.

(** * Further properties of the alerts *)

Lemma check_alert_id quote now a : al_id (check_alert quote now a) = al_id a.
Proof.
  unfold check_alert. destruct (al_triggered a); [reflexivity|].
  destruct (quote (al_ticker a)) as [p|]; [|reflexivity].
  destruct (condition_met a p); reflexivity.
Qed.

(** X19: an alert added with a ticker and a non-zero target is stored
    last and checked in the same run: it comes out triggered, dated today
    like its creation, exactly when a quote is obtained that already meets
    its condition, and active otherwise; a form with an empty ticker, no
    condition or a target of zero adds nothing. *)
Theorem alert_checked_when_added (upper_strip : string → string)
    (id ticker : string) (type : condition)
    (target_price : Q) (quote : string → option Q) (now : string)
    (alerts : list alert) :
  let new_alert :=
    Alert id (upper_strip ticker) type target_price now false None in
  (truthy_str ticker = true → ¬ target_price == 0 →
     add_alert_form upper_strip id ticker (Some type) (Some target_price)
       quote now alerts =
     manage_alerts AlertView quote now alerts ++ [check_alert quote now new_alert]
     ∧ (al_triggered (check_alert quote now new_alert) = true ↔
        ∃ price, quote (upper_strip ticker) = Some price
                 ∧ condition_met new_alert price = true)
     ∧ (al_triggered (check_alert quote now new_alert) = true →
        al_triggered_date (check_alert quote now new_alert) = Some now))
  ∧ (truthy_str ticker = false ∨ target_price == 0 →
       add_alert_form upper_strip id ticker (Some type) (Some target_price)
         quote now alerts =
       manage_alerts AlertView quote now alerts)
  ∧ add_alert_form upper_strip id ticker None (Some target_price) quote now alerts =
    manage_alerts AlertView quote now alerts
  ∧ add_alert_form upper_strip id ticker (Some type) None quote now alerts =
    manage_alerts AlertView quote now alerts.
Proof.
  intros new_alert. split; [|split; [|split; reflexivity]].
  - intros Htk Htp. unfold add_alert_form, manage_alerts, truthy_num.
    assert (E : Qeq_bool target_price 0 = false).
    { destruct (Qeq_bool target_price 0) eqn:E; [|reflexivity].
      apply Qeq_bool_iff in E. contradiction. }
    rewrite Htk, E. simpl. unfold evaluate. rewrite map_app. simpl.
    split; [reflexivity|]. split.
    + apply (check_alert_fires quote now new_alert). reflexivity.
    + unfold check_alert. simpl.
      destruct (quote (upper_strip ticker)) as [p|]; [|discriminate].
      destruct (condition_met new_alert p); [reflexivity | discriminate].
  - intros [Htk|Htp]; unfold add_alert_form, manage_alerts, truthy_num.
    + rewrite Htk. reflexivity.
    + apply Qeq_bool_iff in Htp. rewrite Htp, andb_false_r. reflexivity.
Qed.

Lemma alert_checked_when_added_witness :
  add_alert_form (fun s => s) "al2" "X" (Some BELOW) (Some 50) (quote_at 40)
    "2024-02-02" [above_200] =
  manage_alerts AlertView (quote_at 40) "2024-02-02" [above_200]
    ++ [Alert "al2" "X" BELOW 50 "2024-02-02" true (Some "2024-02-02")].
Proof.
  destruct (alert_checked_when_added (fun s => s) "al2" "X" BELOW 50 (quote_at 40)
              "2024-02-02" [above_200]) as [H _].
  destruct H as (H & _ & _); [reflexivity | discriminate | exact H].
Defined.

(** X20: deleting and dismissing are one operation: either leaves exactly
    the alerts with another id, each checked as on a plain page load, so
    a dismissed alert is gone rather than active again. *)
Theorem alert_delete_dismiss (alert_id : string) (quote : string → option Q)
    (now : string) (alerts : list alert) :
  manage_alerts (AlertDelete alert_id) quote now alerts =
    filter (fun a => al_id a ≠ alert_id) (manage_alerts AlertView quote now alerts)
  ∧ manage_alerts (AlertDismiss alert_id) quote now alerts =
    manage_alerts (AlertDelete alert_id) quote now alerts
  ∧ Forall (fun a => al_id a ≠ alert_id)
      (manage_alerts (AlertDismiss alert_id) quote now alerts).
Proof.
  assert (E : manage_alerts (AlertDelete alert_id) quote now alerts =
    filter (fun a => al_id a ≠ alert_id) (manage_alerts AlertView quote now alerts)).
  { unfold manage_alerts, evaluate.
    induction alerts as [|a l IH]; [reflexivity|].
    cbn [map]. destruct (decide (al_id a ≠ alert_id)) as [Ha|Ha].
    - rewrite filter_cons_True by exact Ha.
      rewrite (filter_cons_True _ (check_alert quote now a))
        by (rewrite check_alert_id; exact Ha).
      cbn [map]. rewrite IH. reflexivity.
    - rewrite filter_cons_False by exact Ha.
      rewrite (filter_cons_False _ (check_alert quote now a))
        by (rewrite check_alert_id; exact Ha).
      exact IH. }
  split; [exact E|]. split; [reflexivity|].
  change (manage_alerts (AlertDismiss alert_id) quote now alerts)
    with (manage_alerts (AlertDelete alert_id) quote now alerts).
  rewrite E. apply Forall_forall. intros a Ha.
  apply list_elem_of_filter in Ha as [Ha _]. exact Ha.
Qed.


(** * The watchlist *)

Lemma filter_all {A} (P : A → Prop) `{∀ x, Decision (P x)} (l : list A) :
  Forall P l → filter P l = l.
Proof.
  induction 1 as [|x l Hx _ IH]; [reflexivity|].
  rewrite filter_cons_True by exact Hx. rewrite IH. reflexivity.
Qed.




(** * Holdings edited by hand *)






(** * The holdings import *)










Lemma import_rows_aborts upper_strip uuid4 yf_price today filename rows :
  Exists (fun row => r_shares row = None) rows →
  ∀ st, import_rows upper_strip uuid4 yf_price today filename st rows = None.
Proof.
  induction 1 as [row rows Hbad|row rows _ IH]; intros st;
    cbn [import_rows].
  - unfold import_row. rewrite Hbad. reflexivity.
  - destruct (import_row _ _ _ _ _ st row); [apply IH | reflexivity].
Qed.

(** X24: one row whose amount is not a number makes the whole import
    store nothing: the rows before it are lost with it. *)
Theorem import_bad_row_stores_nothing (upper_strip : string → string)
    (uuid4 : nat → string) (yf_price : string → Q) (today filename : string)
    (rows : list csv_row) (st : ledger) :
  Exists (fun row => r_shares row = None) rows →
  handle_trades_csv_import upper_strip uuid4 yf_price today filename rows st = st.
Proof.
  intros Hbad. unfold handle_trades_csv_import.
  rewrite (import_rows_aborts _ _ _ _ _ _ Hbad). reflexivity.
Qed.

Lemma import_bad_row_stores_nothing_witness :
  handle_trades_csv_import (fun s => s) uuid_n import_prices "2024-03-01" "h.csv"
    (import_file ++ [CsvRow "Main" "X" None]) (Ledger [] two_accounts) =
  Ledger [] two_accounts.
Proof.
  apply import_bad_row_stores_nothing.
  apply Exists_app. right. apply Exists_cons. left. reflexivity.
Defined.





(** * Expenses *)

Lemma find_duplicates_fold lower format_2f (existing new u d : list expense) :
  let hash := get_expense_hash lower format_2f in
  fold_left
    (fun '(unique, duplicates) exp =>
       if bool_decide (hash exp ∈ (list_to_set (hash <$> existing) : gset string))
       then (unique, duplicates ++ [exp])
       else (unique ++ [exp], duplicates))
    new (u, d) =
  (u ++ filter (fun e => hash e ∉ hash <$> existing) new,
   d ++ filter (fun e => hash e ∈ hash <$> existing) new).
Proof.
  intros hash. revert u d. induction new as [|e new IH]; intros u d.
  - cbn [fold_left]. rewrite !filter_nil, !app_nil_r. reflexivity.
  - cbn [fold_left]. destruct (decide (hash e ∈ hash <$> existing)) as [Hk|Hk].
    + rewrite bool_decide_eq_true_2 by (apply elem_of_list_to_set; exact Hk).
      rewrite IH.
      rewrite (filter_cons_True (fun e => hash e ∈ hash <$> existing) e new Hk).
      rewrite (filter_cons_False (fun e => hash e ∉ hash <$> existing) e new)
        by (intros H; exact (H Hk)).
      rewrite <- app_assoc. reflexivity.
    + rewrite bool_decide_eq_false_2
        by (intros H; apply elem_of_list_to_set in H; exact (Hk H)).
      rewrite IH.
      rewrite (filter_cons_False (fun e => hash e ∈ hash <$> existing) e new Hk).
      rewrite (filter_cons_True (fun e => hash e ∉ hash <$> existing) e new Hk).
      rewrite <- app_assoc. reflexivity.
Qed.

(** X26: [find_duplicates] splits the new expenses, keeping their order,
    into those whose hash no stored expense has and the others; an expense
    is set aside as soon as a stored one has its date, its amount and a
    description equal up to letter case; expenses repeated within the new
    batch are not compared with each other. *)
Theorem find_duplicates_partition (lower : string → string)
    (format_2f : Q → string) (new_expenses existing_expenses : list expense) :
  let hash := get_expense_hash lower format_2f in
  find_duplicates lower format_2f new_expenses existing_expenses =
    (filter (fun e => hash e ∉ hash <$> existing_expenses) new_expenses,
     filter (fun e => hash e ∈ hash <$> existing_expenses) new_expenses)
  ∧ (∀ e x, e ∈ new_expenses → x ∈ existing_expenses →
       e_date e = e_date x → e_amount e = e_amount x →
       lower (default "" (e_description e)) = lower (default "" (e_description x)) →
       e ∈ (find_duplicates lower format_2f new_expenses existing_expenses).2)
  ∧ find_duplicates lower format_2f new_expenses [] = (new_expenses, []).
Proof.
  intros hash.
  assert (E : ∀ existing,
            find_duplicates lower format_2f new_expenses existing =
            (filter (fun e => hash e ∉ hash <$> existing) new_expenses,
             filter (fun e => hash e ∈ hash <$> existing) new_expenses)).
  { intros existing. unfold find_duplicates.
    apply (find_duplicates_fold lower format_2f existing new_expenses [] []). }
  split; [apply E|]. split.
  - intros e x He Hx Hd Ha Hl. rewrite E. cbn [snd].
    apply list_elem_of_filter. split; [|exact He].
    apply list_elem_of_fmap. exists x. split; [|exact Hx].
    unfold hash, get_expense_hash. rewrite Hd, Ha, Hl. reflexivity.
  - rewrite E. f_equal.
    + apply filter_all. apply Forall_forall. intros e _ H.
      cbn in H. inversion H.
    + clear E. induction new_expenses as [|e l IH]; [reflexivity|].
      rewrite filter_cons_False; [exact IH|]. cbn. intros H. inversion H.
Qed.

Lemma find_duplicates_partition_witness :
  Expense (Some "2024-01-05") (Some "Cafe") (Some 4) None ∈
    (find_duplicates (fun s => s) (fun _ => "") 
       [Expense (Some "2024-01-05") (Some "Cafe") (Some 4) None]
       [Expense (Some "2024-01-05") (Some "Cafe") (Some 4) (Some "Dining")]).2.
Proof.
  apply (proj1 (proj2 (find_duplicates_partition (fun s => s) (fun _ => "")
           [Expense (Some "2024-01-05") (Some "Cafe") (Some 4) None]
           [Expense (Some "2024-01-05") (Some "Cafe") (Some 4) (Some "Dining")]))
         _ (Expense (Some "2024-01-05") (Some "Cafe") (Some 4) (Some "Dining")));
    first [reflexivity | apply list_elem_of_here].
Defined.

Lemma fold_left_Qplus l a : fold_left Qplus l a == a + sumQ l.
Proof.
  revert a. induction l as [|x l IH]; intros a; cbn [fold_left sumQ].
  - lra.
  - rewrite IH. lra.
Qed.

Lemma py_sum_sumQ l : py_sum l == sumQ l.
Proof. unfold py_sum. rewrite fold_left_Qplus. lra. Qed.

Lemma cat_totals_fold (es : list expense) (m : gmap string Q) :
  let r := fold_left
             (fun totals e =>
                let c := default "Other" (e_category e) in
                <[c := default 0 (totals !! c) + default 0 (e_amount e)]> totals)
             es m in
  map_sum (fun _ v => v) r == map_sum (fun _ v => v) m + sumQ (amount_of <$> es)
  ∧ ∀ c, default 0 (r !! c) ==
           default 0 (m !! c)
           + sumQ (amount_of <$> filter (fun e => category_of e = c) es)
         ∧ (is_Some (r !! c) ↔
            is_Some (m !! c) ∨ ∃ e, e ∈ es ∧ category_of e = c).
Proof.
  revert m. induction es as [|e es IH]; intros m; cbn [fold_left].
  - split; [cbn; lra|]. intros c. rewrite filter_nil. split; [cbn; lra|].
    split; [auto|]. intros [H|(e & He & _)]; [exact H | inversion He].
  - set (c0 := default "Other" (e_category e)).
    set (m1 := <[c0 := default 0 (m !! c0) + default 0 (e_amount e)]> m).
    destruct (IH m1) as [Hsum Hcat]. split.
    + rewrite Hsum. rewrite fmap_cons. cbn [sumQ]. unfold m1.
      destruct (m !! c0) as [y|] eqn:E.
      * rewrite (map_sum_insert_over _ _ _ _ y E).
        unfold amount_of. cbn [default from_option id]. lra.
      * rewrite (map_sum_insert_new _ _ _ _ E).
        unfold amount_of. cbn [default from_option id]. lra.
    + intros c. destruct (Hcat c) as [Hv Hs].
      destruct (decide (c0 = c)) as [Hc|Hc].
      * rewrite (filter_cons_True (fun e => category_of e = c) e es Hc), fmap_cons. cbn [sumQ].
        split.
        -- rewrite Hv. unfold m1. rewrite <- Hc, lookup_insert_eq.
           unfold amount_of. cbn [default from_option id]. lra.
        -- rewrite Hs. unfold m1. rewrite <- Hc, lookup_insert_eq. split.
           ++ intros _. right. exists e. split; [left | reflexivity].
           ++ intros _. left. eauto.
      * rewrite (filter_cons_False (fun e => category_of e = c) e es Hc). split.
        -- rewrite Hv. unfold m1. rewrite lookup_insert_ne by exact Hc.
           reflexivity.
        -- rewrite Hs. unfold m1. rewrite lookup_insert_ne by exact Hc. split.
           ++ intros [H|(x & Hx & Hxc)]; [left; exact H|].
              right. exists x. split; [right; exact Hx | exact Hxc].
           ++ intros [H|(x & Hx & Hxc)]; [left; exact H|].
              apply elem_of_cons in Hx as [->|Hx]; [contradiction|].
              right. exists x. auto.
Qed.

(** X27: the category totals of a month add up to the month's total; each
    listed category carries the sum of the month's expenses filed under
    it (under [Other] when the category is missing), and a category is
    listed exactly when the month has an expense in it. *)
Theorem category_totals_add_up (current_month : string) (expenses : list expense) :
  let month := month_expenses current_month expenses in
  map_sum (fun _ v => v) (cat_totals month) == total_spent month
  ∧ ∀ c,
      (is_Some (cat_totals month !! c) ↔
       ∃ e, e ∈ expenses
            ∧ String.prefix current_month (default "" (e_date e)) = true
            ∧ default "Other" (e_category e) = c)
      ∧ default 0 (cat_totals month !! c) ==
        py_sum ((fun e => default 0 (e_amount e)) <$>
                  filter (fun e => default "Other" (e_category e) = c) month).
Proof.
  intros month. destruct (cat_totals_fold month ∅) as [Hsum Hcat].
  fold (cat_totals month) in Hsum, Hcat. split.
  - rewrite Hsum. unfold total_spent. rewrite py_sum_sumQ.
    assert (E0 : map_sum (fun (_ : string) (v : Q) => v) ∅ == 0) by reflexivity.
    rewrite E0. unfold amount_of. lra.
  - intros c. destruct (Hcat c) as [Hv Hs]. split.
    + rewrite Hs. rewrite lookup_empty. split.
      * intros [[x Hx]|(e & He & Hc)]; [discriminate|].
        apply list_elem_of_filter in He as [Hp He]. eauto.
      * intros (e & He & Hp & Hc). right. exists e. split; [|exact Hc].
        apply list_elem_of_filter. auto.
    + rewrite Hv, lookup_empty, py_sum_sumQ.
      unfold amount_of, category_of. cbn [default from_option id]. lra.
Qed.


(** * Returns and their sign *)

(** X28: for a positive past price the return reproduces the current
    price from the past one, is shown as positive exactly when the price
    has not fallen, and is never below -100 for a price that is not
    negative; without a usable past price the return is 0 and shown as
    positive. *)
Theorem return_sign (current_price past_price : Q) :
  (0 < past_price →
   past_price * (1 + calc_return current_price (Some past_price) / 100)
     == current_price
   ∧ (format_change_class (calc_return current_price (Some past_price))
        = "positive" ↔ past_price <= current_price)
   ∧ (0 <= current_price →
      -(100) <= calc_return current_price (Some past_price)))
  ∧ (past_price <= 0 →
     calc_return current_price (Some past_price) = 0)
  ∧ format_change_class (calc_return current_price None) = "positive".
Proof.
  split; [|split; [|reflexivity]].
  - intros Hp. unfold calc_return. rewrite (proj2 (Qltb_lt _ _) Hp).
    set (r := (current_price - past_price) / past_price * 100).
    assert (Hr : r * past_price == (current_price - past_price) * 100)
      by (unfold r; field; lra).
    split; [|split].
    + assert (E : past_price * (1 + r / 100)
                  == past_price + r * past_price / 100) by (field; lra).
      rewrite E, Hr. field.
    + unfold format_change_class. destruct (Qle_bool 0 r) eqn:E.
      * apply Qle_bool_iff in E. split; [intros _; nra | reflexivity].
      * apply Qle_bool_false in E. split; [discriminate|]. intros Hle. nra.
    + intros Hc. nra.
  - intros Hp. unfold calc_return.
    rewrite (proj2 (Qltb_ge _ _) Hp). reflexivity.
Qed.

Lemma return_sign_witness :
  80 * (1 + calc_return 100 (Some 80) / 100) == 100
  ∧ format_change_class (calc_return 100 (Some 80)) = "positive".
Proof.
  destruct (return_sign 100 80) as [H _].
  destruct H as (H1 & H2 & _); [reflexivity|].
  split; [exact H1|]. apply H2. discriminate.
Defined.

(** * Categories guessed from a description *)

Lemma prefix_app_l (a b s : string) :
  String.prefix (a ++ b) s = true → String.prefix a s = true.
Proof.
  revert s. induction a as [|x a IH]; intros s; [destruct s; reflexivity|].
  destruct s as [|y s]; simpl; [discriminate|].
  destruct (Ascii.ascii_dec x y); [apply IH | discriminate].
Qed.

Lemma contains_app_l (a b s : string) :
  contains (a ++ b) s = true → contains a s = true.
Proof.
  induction s as [|y s IH]; cbn [contains]; intros H;
    apply orb_true_iff in H as [H|H]; apply orb_true_iff.
  - left. exact (prefix_app_l _ _ _ H).
  - discriminate.
  - left. exact (prefix_app_l _ _ _ H).
  - right. exact (IH H).
Qed.

Lemma first_category_listed desc_lower categories table :
  first_category desc_lower categories table = "Other"
  ∨ first_category desc_lower categories table ∈ categories.
Proof.
  induction table as [|[category kws] table IH]; cbn [first_category];
    [left; reflexivity|].
  destruct (bool_decide (category ∈ categories)) eqn:E; cbn [andb]; [|exact IH].
  destruct (existsb _ kws); [|exact IH].
  right. apply bool_decide_eq_true in E. exact E.
Qed.

(** X29: the guessed category is [Other] or one of the caller's
    categories.  The table is read in order, so a description that
    mentions [amazon prime] is filed under Shopping (or Dining) whenever
    Shopping is allowed: the Entertainment keyword never decides then. *)
Theorem auto_categorize_listed (lower : string → string)
    (description : string) (categories : list string) :
  (auto_categorize lower description categories = "Other"
   ∨ auto_categorize lower description categories ∈ categories)
  ∧ ("Shopping" ∈ categories →
     contains "amazon prime" (lower description) = true →
     auto_categorize lower description categories = "Dining"
     ∨ auto_categorize lower description categories = "Shopping").
Proof.
  split; [apply first_category_listed|].
  intros Hshop Hkw. unfold auto_categorize, keywords.
  cbn [first_category].
  match goal with
  | |- context [bool_decide ("Dining" ∈ categories) && ?b] =>
      destruct (bool_decide ("Dining" ∈ categories) && b)
  end; [left; reflexivity|].
  right. rewrite (bool_decide_eq_true_2 _ Hshop). cbn [andb existsb].
  change "amazon prime" with ("amazon" ++ " prime")%string in Hkw.
  rewrite (contains_app_l _ _ _ Hkw). reflexivity.
Qed.

Lemma auto_categorize_listed_witness :
  auto_categorize (fun s => s) "amazon prime video" ["Entertainment"; "Shopping"]
    = "Dining"
  ∨ auto_categorize (fun s => s) "amazon prime video" ["Entertainment"; "Shopping"]
    = "Shopping".
Proof.
  apply (proj2 (auto_categorize_listed (fun s => s) "amazon prime video"
                  ["Entertainment"; "Shopping"])).
  - apply (bool_decide_unpack _). vm_compute. exact I.
  - reflexivity.
Defined.


(** * Recurring income *)

Lemma generate_loop_spec format_date uuid4 today existing rec :
  (0 < rec_weeks_interval rec)%Z →
  ∀ fuel current income ids,
    (Z.max 0 (today - current + 1) < Z.of_nat fuel)%Z →
    ∃ new,
      generate_loop format_date uuid4 fuel today existing rec current income ids
        = Some (income ++ new, (ids + length new)%nat)
      ∧ Forall (generated_for rec) new
      ∧ (∀ k : nat,
           (current + 7 * rec_weeks_interval rec * Z.of_nat k <= today)%Z →
           Some (format_date (current + 7 * rec_weeks_interval rec * Z.of_nat k)%Z)
             ∈ existing
           ∨ ∃ e, e ∈ new ∧ generated_for rec e
                  ∧ in_date e =
                    Some (format_date
                            (current + 7 * rec_weeks_interval rec * Z.of_nat k)%Z))
      ∧ ((∀ k : nat,
            (current + 7 * rec_weeks_interval rec * Z.of_nat k <= today)%Z →
            Some (format_date (current + 7 * rec_weeks_interval rec * Z.of_nat k)%Z)
              ∈ existing) →
         new = []).
Proof.
  intros Hw. set (w := rec_weeks_interval rec) in *.
  induction fuel as [|fuel IH]; intros current income ids Hfuel; [lia|].
  cbn [generate_loop]. fold w.
  destruct (current <=? today)%Z eqn:Hle.
  - apply Z.leb_le in Hle.
    assert (Hfuel' : (Z.max 0 (today - (current + 7 * w) + 1) < Z.of_nat fuel)%Z)
      by lia.
    assert (Hshift : ∀ k : nat,
              (current + 7 * w + 7 * w * Z.of_nat k)%Z =
              (current + 7 * w * Z.of_nat (S k))%Z) by (intros k; lia).
    assert (Hzero : (current + 7 * w * Z.of_nat 0)%Z = current) by lia.
    destruct (bool_decide (Some (format_date current) ∈ existing)) eqn:Hin.
    + apply bool_decide_eq_true in Hin.
      destruct (IH (current + 7 * w)%Z income ids Hfuel')
        as (new & E & Hnew & Hcov & Hnone).
      exists new. split; [exact E|]. split; [exact Hnew|]. split.
      * intros [|k] Hk.
        -- left. rewrite Hzero. exact Hin.
        -- rewrite <- Hshift in Hk |- *. apply Hcov. exact Hk.
      * intros Hall. apply Hnone. intros k Hk.
        rewrite Hshift in Hk |- *. apply Hall. exact Hk.
    + apply bool_decide_eq_false in Hin.
      set (e0 := Income (uuid4 ids) (Some (format_date current)) "SALARY"
                   (Some (rec_description rec)) (rec_amount rec)).
      destruct (IH (current + 7 * w)%Z (income ++ [e0]) (S ids) Hfuel')
        as (new & E & Hnew & Hcov & Hnone).
      assert (He0 : generated_for rec e0) by (repeat split).
      exists (e0 :: new). split.
      * rewrite E, <- app_assoc. cbn [app length].
        replace (S ids + length new)%nat with (ids + S (length new))%nat by lia.
        reflexivity.
      * split; [constructor; assumption|]. split.
        -- intros [|k] Hk.
           ++ right. exists e0. split; [left|]. split; [exact He0|].
              rewrite Hzero. reflexivity.
           ++ rewrite <- Hshift in Hk |- *.
              destruct (Hcov k Hk) as [H|(e & He & Hg & Hd)]; [left; exact H|].
              right. exists e. split; [right; exact He | auto].
        -- intros Hall. exfalso. apply Hin.
           specialize (Hall 0%nat). rewrite Hzero in Hall. apply Hall. lia.
  - apply Z.leb_gt in Hle. exists []. rewrite app_nil_r, Nat.add_0_r.
    split; [reflexivity|]. split; [constructor|]. split; [|reflexivity].
    intros k Hk. exfalso. nia.
Qed.

(** X30: for a source with a start date that parses and a positive
    interval, Generate ends: it adds only SALARY entries of the source
    with its amount, afterwards every due date from the start to today
    has an entry of the source, and pressing Generate again adds
    nothing. *)
Theorem generate_twice_adds_nothing (parse_date : string → option Z)
    (format_date : Z → string) (uuid4 : nat → string) (fuel : nat) (today : Z)
    (id : string) (recs : list recurring) (rec : recurring) (start : Z)
    (income : list income_entry) (ids : nat) :
  find_recurring id recs = Some rec →
  parse_date (rec_start_date rec) = Some start →
  (0 < rec_weeks_interval rec)%Z →
  (Z.max 0 (today - start + 1) < Z.of_nat fuel)%Z →
  ∃ new,
    generate parse_date format_date uuid4 fuel today id recs income ids
      = Some (income ++ new, (ids + length new)%nat)
    ∧ Forall (generated_for rec) new
    ∧ (∀ k : nat,
         (start + 7 * rec_weeks_interval rec * Z.of_nat k <= today)%Z →
         ∃ e, e ∈ income ++ new
              ∧ in_source e = Some (rec_description rec)
              ∧ in_date e =
                Some (format_date
                        (start + 7 * rec_weeks_interval rec * Z.of_nat k)%Z))
    ∧ generate parse_date format_date uuid4 fuel today id recs
        (income ++ new) (ids + length new)%nat
      = Some (income ++ new, (ids + length new)%nat).
Proof.
  intros Hrec Hstart Hw Hfuel. unfold generate. rewrite Hrec, Hstart.
  set (src := fun i : income_entry => in_source i = Some (rec_description rec)).
  destruct (generate_loop_spec format_date uuid4 today
              (in_date <$> filter src income) rec Hw fuel start income ids Hfuel)
    as (new & E & Hnew & Hcov & _).
  assert (Hdue : ∀ k : nat,
            (start + 7 * rec_weeks_interval rec * Z.of_nat k <= today)%Z →
            ∃ e, e ∈ income ++ new ∧ in_source e = Some (rec_description rec)
                 ∧ in_date e =
                   Some (format_date
                           (start + 7 * rec_weeks_interval rec * Z.of_nat k)%Z)).
  { intros k Hk. destruct (Hcov k Hk) as [Hin|(e & He & Hg & Hd)].
    - apply list_elem_of_fmap in Hin as (e & Hd & He).
      apply list_elem_of_filter in He as [Hs He].
      exists e. split; [apply elem_of_app; left; exact He|]. auto.
    - exists e. split; [apply elem_of_app; right; exact He|].
      split; [apply Hg | exact Hd]. }
  exists new. split; [exact E|]. split; [exact Hnew|]. split; [exact Hdue|].
  destruct (generate_loop_spec format_date uuid4 today
              (in_date <$> filter src (income ++ new)) rec Hw fuel start
              (income ++ new) (ids + length new)%nat Hfuel)
    as (new2 & E2 & _ & _ & Hnone).
  rewrite E2, Hnone; [rewrite app_nil_r, Nat.add_0_r; reflexivity|].
  intros k Hk. destruct (Hdue k Hk) as (e & He & Hs & Hd).
  rewrite <- Hd. apply list_elem_of_fmap. exists e. split; [reflexivity|].
  apply list_elem_of_filter. split; [exact Hs | exact He].
Qed.

Lemma generate_twice_adds_nothing_witness :
  ∃ new,
    generate day_of show_day uuid_n 40 30 "r1" [salary] [] 0
      = Some ([] ++ new, (0 + length new)%nat)
    ∧ Forall (generated_for salary) new
    ∧ generate day_of show_day uuid_n 40 30 "r1" [salary] ([] ++ new)
        (0 + length new)%nat
      = Some ([] ++ new, (0 + length new)%nat).
Proof.
  destruct (generate_twice_adds_nothing day_of show_day uuid_n 40 30 "r1"
              [salary] salary 0 [] 0) as (new & E & Hnew & _ & E2).
  - reflexivity.
  - reflexivity.
  - reflexivity.
  - reflexivity.
  - exists new. auto.
Defined.
